(** * Type I migration force of REBOUNDx: [type_I_migration.c]

    A shallow embedding of the C source and the properties of its
    disc model, planet trap and per-particle force evaluator.

    Numbers.  A C [double] is read as a real number ([R]); the constant
    [INFINITY], which the evaluator stores in [tau_e] and [tau_inc], is the
    extra value [PlusInf] of [xreal].  [M_PI] is [PI].  The source writes
    exponentiation as [x**y]: an integer literal exponent is read as the
    iterated product [x ^ n], any other exponent as [pow_real]. *)

From Stdlib Require Import Reals Lra String List.
Import ListNotations.
Open Scope R_scope.

(** ** Elementary arithmetic of the source *)

(** [x**y] for a real exponent, as C's [pow] on a base [0 <= x]:
    [pow(0,0) = 1], [pow(0,y) = 0] for [0 < y], and [exp (y * ln x)]
    for [0 < x]. *)
Definition pow_real (x y : R) : R :=
  if Req_dec_T x 0 then (if Req_dec_T y 0 then 1 else 0) else Rpower x y.

(** A [double] that may hold [INFINITY]. *)
Inductive xreal : Type :=
| Finite (v : R)
| PlusInf.

(** [t < INFINITY] *)
Definition lt_INFINITY (t : xreal) : bool :=
  match t with
  | Finite _ => true
  | PlusInf => false
  end.

(** [x / t] for a finite numerator [x]: a finite value over [INFINITY]
    is zero. *)
Definition div_xreal (x : R) (t : xreal) : R :=
  match t with
  | Finite v => x / v
  | PlusInf => 0
  end.

(** ** Planet trap (lines 78-94) *)

(** The argument of the cosine in the transition branch. *)
Definition trap_angle (r h dedge : R) : R :=
  ((dedge * (1 + h) - r) * 2 * PI) / (4 * h * dedge).

Definition rebx_calculate_planet_trap (r h dedge : R) : R :=
  if Rgt_dec r (dedge * (1 + h)) then 1
  else if Rlt_dec (dedge * (1 - h)) r then
         5.5 * cos (trap_angle r h dedge) - 4.5
       else -10.

(** ** Disc profile and timescales (lines 100-151) *)

Definition rebx_calculating_the_aspect_ratio (r beta : R) : R :=
  0.02 * (pow_real 3 (- beta)) * (pow_real r beta).

(** [G] is [sim->G] in the source, where no [sim] is in scope: it is an
    argument here. *)
Definition rebx_calculating_damping_timescale
    (G mp ms sma r sd0 alpha ar : R) : R :=
  let sd := sd0 * (pow_real r (- alpha)) in
  ((ms ^ 2) / (mp * sd * sma ^ 2)) * (ar ^ 4) * (1 / sqrt ((G * ms) / sma)).

Definition rebx_calculating_eccentricity_damping_timescale
    (G mp ms sma r sd0 alpha ar ecc : R) : R :=
  (rebx_calculating_damping_timescale G mp ms sma r sd0 alpha ar / 0.780)
  * (1 - 0.14 * ((ecc / ar) ^ 2) + 0.06 * ((ecc / ar) ^ 3)).

(** The two halves of the quotient [Pe] of line 148 (and of the
    commented-out [rebx_calculating_Pe_factor]). *)
Definition Pe_numerator (ar ecc : R) : R :=
  1 + pow_real (ecc / (2.25 * ar)) 1.2 + (ecc / (2.84 * ar)) ^ 6.

Definition Pe_denominator (ar ecc : R) : R :=
  1 - (ecc / (2.02 * ar)) ^ 4.

Definition rebx_calculating_Pe_factor (ar ecc : R) : R :=
  Pe_numerator ar ecc / Pe_denominator ar ecc.

(** Line 149 passes [ecc] as an eighth argument to the seven-argument
    [rebx_calculating_damping_timescale]; the callee has no use for it. *)
Definition reb_calculating_semi_major_axis_damping_timescale
    (G mp ms sma r sd0 alpha ar ecc : R) : R :=
  let Pe := rebx_calculating_Pe_factor ar ecc in
  ((2 * rebx_calculating_damping_timescale G mp ms sma r sd0 alpha ar)
     / (2.7 + 1.1 * alpha)) * (ar ^ 2) * Pe.

(** ** Data of the host simulation *)

Record reb_vec3d : Type := mk_vec3d { vec_x : R; vec_y : R; vec_z : R }.

(** The parameters attached to a particle or to a force ([ap]): named
    [double] values. *)
Definition params : Type := list (string * R).

(** Modelled from the spec: [rebx_get_param] is not in the source file; the
    spec gives it as [get(scope, key) -> optional(double)], returning absent
    if unset.  [None] is the C null pointer, [Some v] a pointer to [v]. *)
Fixpoint rebx_get_param (ap : params) (name : string) : option R :=
  match ap with
  | [] => None
  | (key, v) :: rest =>
      if String.eqb key name then Some v else rebx_get_param rest name
  end.

Record reb_particle : Type := mk_particle {
  p_x : R; p_y : R; p_z : R;
  p_vx : R; p_vy : R; p_vz : R;
  p_ax : R; p_ay : R; p_az : R;
  p_m : R;
  p_ap : params
}.

Record reb_simulation : Type := mk_simulation { sim_G : R }.

Record rebx_force : Type := mk_force { f_ap : params }.

Record reb_orbit : Type := mk_orbit { o_a : R; o_e : R; o_inc : R }.

(** What the four pointer arguments [sim], [force], [p] and [source] of the
    evaluator point at. *)
Record memory : Type := mk_memory {
  at_sim : reb_simulation;
  at_force : rebx_force;
  at_p : reb_particle;
  at_source : reb_particle
}.

(** What the evaluator uses and the source file does not define: the
    orbit routine of REBOUND, and the identifiers that lines 171-213 use
    without a declaration. *)
Record environment : Type := mk_environment {
  reb_tools_particle_to_orbit_err : R -> reb_particle -> reb_particle -> reb_orbit;
  env_primary : reb_particle;   (* [*primary], line 171 *)
  env_ms : R;                   (* [ms], lines 187 and 190 *)
  env_t_e : option R;           (* the pointer [t_e] tested at line 189 *)
  env_r : R;                    (* [r], lines 202-204 *)
  env_a : reb_vec3d             (* [a], updated at lines 209-211 and returned *)
}.

(** ** Computations over the memory *)

(** A call returns a value or reads through a null pointer. *)
Inductive outcome (A : Type) : Type :=
| Returns (v : A)
| NullDeref.
Arguments Returns {A} v.
Arguments NullDeref {A}.

Definition M (A : Type) : Type := memory -> outcome A * memory.

Definition ret {A : Type} (v : A) : M A := fun m => (Returns v, m).

Definition bind {A B : Type} (c : M A) (k : A -> M B) : M B :=
  fun m =>
    match c m with
    | (Returns v, m') => k v m'
    | (NullDeref, m') => (NullDeref, m')
    end.

Notation "x <- c ;; k" := (bind c (fun x => k))
  (at level 61, c at next level, right associativity).

(** A load from the memory. *)
Definition read {A : Type} (f : memory -> A) : M A :=
  fun m => (Returns (f m), m).

(** A store to the memory. *)
Definition write (f : memory -> memory) : M unit :=
  fun m => (Returns tt, f m).

(** [*ptr] *)
Definition deref (ptr : option R) : M R :=
  fun m =>
    (match ptr with
     | Some v => Returns v
     | None => NullDeref
     end, m).

(** [rebx_get_param(sim->extras, p->ap, name)] and
    [rebx_get_param(sim->extras, force->ap, name)]. *)
Definition particle_lookup (m : memory) (name : string) : option R :=
  rebx_get_param (p_ap (at_p m)) name.

Definition force_lookup (m : memory) (name : string) : option R :=
  rebx_get_param (f_ap (at_force m)) name.

Definition particle_param (name : string) : M (option R) :=
  read (fun m => particle_lookup m name).

Definition force_param (name : string) : M (option R) :=
  read (fun m => force_lookup m name).

(** ** The per-particle force evaluator (lines 153-214) *)

(** The variables of the evaluator when it reaches [return a]: its locals
    and the vectors [am], [aa], [ae] and [a]. *)
Record locals : Type := mk_locals {
  l_invtau_a : R;
  l_tau_e : xreal;
  l_tau_inc : xreal;
  l_am : reb_vec3d;
  l_aa : reb_vec3d;
  l_ae : reb_vec3d;
  l_a : reb_vec3d
}.

(** Lines 206-212: the block that adds the eccentricity and inclination
    term to [a]. *)
Definition add_ecc_inc_term (tau_e tau_inc : xreal)
    (dx dy dz dvx dvy dvz r2 : R) (a : reb_vec3d) : reb_vec3d :=
  if (lt_INFINITY tau_e || lt_INFINITY tau_inc)%bool then
    let vdotr := dx * dvx + dy * dvy + dz * dvz in
    let prefac := div_xreal (2 * vdotr / r2) tau_e in
    mk_vec3d (vec_x a + prefac * dx)
             (vec_y a + prefac * dy)
             (vec_z a + (prefac * dz + div_xreal (2 * dvz) tau_inc))
  else a.

(** The body of [rebx_calculate_modify_orbits_with_type_I_migration], up to
    the [return].  Line 166 reads [force-Zap]; it is taken as [force->ap]
    like the four lines before it.  In lines 202-204 the quotient by
    [(sqrt(r2)**2) * tau_e] is taken in two steps. *)
Definition evaluator_body (E : environment) : M locals :=
  tau_a_ptr <- particle_param "tau_a" ;;
  tau_e_ptr <- particle_param "tau_e" ;;
  tau_inc_ptr <- particle_param "tau_inc" ;;
  dedge <- force_param "inner_disc_edge" ;;
  h <- force_param "disc_edge_width" ;;
  beta <- force_param "beta" ;;
  alpha <- force_param "alpha" ;;
  sd0 <- force_param "initial_disc_surface_density" ;;
  G <- read (fun m => sim_G (at_sim m)) ;;
  p <- read at_p ;;
  source <- read at_source ;;
  let o := reb_tools_particle_to_orbit_err E G p (env_primary E) in
  let a0 := o_a o in
  let e0 := o_e o in
  let inc0 := o_inc o in
  let mp := p_m p in
  let ms := env_ms E in
  let dvx := p_vx p - p_vx source in
  let dvy := p_vy p - p_vy source in
  let dvz := p_vz p - p_vz source in
  let dx := p_x p - p_x source in
  let dy := p_y p - p_y source in
  let dz := p_z p - p_z source in
  let r2 := dx * dx + dy * dy + dz * dz in
  invtau_a <-
    match tau_a_ptr with
    | Some _ =>
        h' <- deref h ;;
        dedge' <- deref dedge ;;
        sd0' <- deref sd0 ;;
        alpha' <- deref alpha ;;
        beta' <- deref beta ;;
        ret (rebx_calculate_planet_trap a0 h' dedge'
             / reb_calculating_semi_major_axis_damping_timescale
                 G mp ms a0 (sqrt r2) sd0' alpha'
                 (rebx_calculating_the_aspect_ratio (sqrt r2) beta') e0)
    | None => ret 0
    end ;;
  tau_e <-
    match env_t_e E with
    | Some _ =>
        sd0' <- deref sd0 ;;
        alpha' <- deref alpha ;;
        beta' <- deref beta ;;
        ret (Finite (rebx_calculating_eccentricity_damping_timescale
                       G mp ms a0 (sqrt r2) sd0' alpha'
                       (rebx_calculating_the_aspect_ratio (sqrt r2) beta') e0))
    | None => ret PlusInf
    end ;;
  tau_inc <-
    match tau_inc_ptr with
    | Some _ => v <- deref tau_inc_ptr ;; ret (Finite v)
    | None => ret PlusInf
    end ;;
  let am := mk_vec3d 0 0 0 in
  let aa := mk_vec3d (- dvx * invtau_a) (- dvy * invtau_a) (- dvz * invtau_a) in
  let sr := sqrt (env_r E) in
  let ae :=
    mk_vec3d (div_xreal ((-2 * (dvx * sr) * sr) / (sqrt r2 ^ 2)) tau_e)
             (div_xreal ((-2 * (dvy * sr) * sr) / (sqrt r2 ^ 2)) tau_e)
             (div_xreal ((-2 * (dvz * sr) * sr) / (sqrt r2 ^ 2)) tau_e) in
  let a := add_ecc_inc_term tau_e tau_inc dx dy dz dvx dvy dvz r2 (env_a E) in
  ret (mk_locals invtau_a tau_e tau_inc am aa ae a).

Definition rebx_calculate_modify_orbits_with_type_I_migration
    (E : environment) : M reb_vec3d :=
  l <- evaluator_body E ;; ret (l_a l).

(** ** The formulas of the specification *)

(** The transition branch of [trapFactor] as the specification writes it. *)
Definition trapFactor_transition_spec (r h r_edge : R) : R :=
  5.5 * cos (PI * (r_edge * (1 + h) - r) / (2 * h * r_edge)) - 4.5.

(** The wave timescale as the specification writes it. *)
Definition waveTimescale_spec (G mPlanet mStar a r sigma0 alpha Hr : R) : R :=
  (mStar / mPlanet) * (mStar / (sigma0 * pow_real r (- alpha) * a ^ 2))
  * Hr ^ 4 * sqrt (a ^ 3 / (G * mStar)).

(** ** Auxiliary notions for the proofs *)

(** [r] brought into the trap zone [[lo, hi]]. *)
Definition clamp (lo hi r : R) : R := Rmax lo (Rmin r hi).

(** The transition branch of the planet trap as a function of [r]. *)
Definition trap_transition (h dedge r : R) : R :=
  5.5 * cos (trap_angle r h dedge) - 4.5.

(** A computation that leaves the memory as it found it. *)
Definition frame_preserving {A : Type} (c : M A) : Prop :=
  forall m, snd (c m) = m.

(** [ptr == NULL] *)
Definition is_null (ptr : option R) : bool :=
  match ptr with
  | Some _ => false
  | None => true
  end.

(** Line 186: the branch that derives [invtau_a] from the disc is entered. *)
Definition semimajor_path_taken (m : memory) : bool :=
  negb (is_null (particle_lookup m "tau_a")).

(** One of the five pointers dereferenced at line 187 is null. *)
Definition semimajor_path_null (m : memory) : bool :=
  (is_null (force_lookup m "disc_edge_width")
   || is_null (force_lookup m "inner_disc_edge")
   || is_null (force_lookup m "initial_disc_surface_density")
   || is_null (force_lookup m "alpha")
   || is_null (force_lookup m "beta"))%bool.

(** Line 189: the branch that derives [tau_e] from the disc is entered. *)
Definition eccentricity_path_taken (E : environment) : bool :=
  negb (is_null (env_t_e E)).

(** One of the three pointers dereferenced at line 190 is null. *)
Definition eccentricity_path_null (m : memory) : bool :=
  (is_null (force_lookup m "initial_disc_surface_density")
   || is_null (force_lookup m "alpha")
   || is_null (force_lookup m "beta"))%bool.

(** The orbit and the squared distance that the evaluator computes at
    lines 171-184. *)
Definition orbit_of (E : environment) (m : memory) : reb_orbit :=
  reb_tools_particle_to_orbit_err E (sim_G (at_sim m)) (at_p m) (env_primary E).

Definition r2_of (m : memory) : R :=
  let dx := p_x (at_p m) - p_x (at_source m) in
  let dy := p_y (at_p m) - p_y (at_source m) in
  let dz := p_z (at_p m) - p_z (at_source m) in
  dx * dx + dy * dy + dz * dz.

(** The right-hand sides of the assignments of lines 187 and 190, given
    the values behind the pointers. *)
Definition disc_invtau_a (E : environment) (m : memory)
    (h dedge sd0 alpha beta : R) : R :=
  rebx_calculate_planet_trap (o_a (orbit_of E m)) h dedge
  / reb_calculating_semi_major_axis_damping_timescale
      (sim_G (at_sim m)) (p_m (at_p m)) (env_ms E) (o_a (orbit_of E m))
      (sqrt (r2_of m)) sd0 alpha
      (rebx_calculating_the_aspect_ratio (sqrt (r2_of m)) beta)
      (o_e (orbit_of E m)).

Definition disc_tau_e (E : environment) (m : memory) (sd0 alpha beta : R) : R :=
  rebx_calculating_eccentricity_damping_timescale
    (sim_G (at_sim m)) (p_m (at_p m)) (env_ms E) (o_a (orbit_of E m))
    (sqrt (r2_of m)) sd0 alpha
    (rebx_calculating_the_aspect_ratio (sqrt (r2_of m)) beta)
    (o_e (orbit_of E m)).

Definition vec_sub (u v : reb_vec3d) : reb_vec3d :=
  mk_vec3d (vec_x u - vec_x v) (vec_y u - vec_y v) (vec_z u - vec_z v).

(** What lines 206-212 have added to [a] when the evaluator returns. *)
Definition ecc_inc_contribution (E : environment) (l : locals) : reb_vec3d :=
  vec_sub (l_a l) (env_a E).

(** The position and the velocity of the particle relative to the source
    (lines 178-183). *)
Definition rel_position (m : memory) : reb_vec3d :=
  mk_vec3d (p_x (at_p m) - p_x (at_source m))
           (p_y (at_p m) - p_y (at_source m))
           (p_z (at_p m) - p_z (at_source m)).

Definition rel_velocity (m : memory) : reb_vec3d :=
  mk_vec3d (p_vx (at_p m) - p_vx (at_source m))
           (p_vy (at_p m) - p_vy (at_source m))
           (p_vz (at_p m) - p_vz (at_source m)).

(** The vector product, for the torque of an acceleration. *)
Definition vec_cross (u v : reb_vec3d) : reb_vec3d :=
  mk_vec3d (vec_y u * vec_z v - vec_z u * vec_y v)
           (vec_z u * vec_x v - vec_x u * vec_z v)
           (vec_x u * vec_y v - vec_y u * vec_x v).

(** The scalar product. *)
Definition vec_dot (u v : reb_vec3d) : R :=
  vec_x u * vec_x v + vec_y u * vec_y v + vec_z u * vec_z v.

(** ** A concrete system: the scenario of the specification

    A planet of mass 1e-5 at [(1,0,0)] with velocity [(0,1,0)] around a star
    of mass 1 at rest at the origin, [G = 1]; a disc with inner edge 1,
    edge width 0.05, [beta = 0], [alpha = 1] and surface density 1e-3. *)

Definition disc_ap : params :=
  [ ("inner_disc_edge", 1); ("disc_edge_width", 0.05); ("beta", 0);
    ("alpha", 1); ("initial_disc_surface_density", 0.001) ]%string.

(** The disc without its edge: no [inner_disc_edge], no [disc_edge_width]. *)
Definition disc_no_edge_ap : params :=
  [ ("beta", 0); ("alpha", 1); ("initial_disc_surface_density", 0.001) ]%string.

Definition star : reb_particle := mk_particle 0 0 0 0 0 0 0 0 0 1 [].

Definition planet (ap : params) : reb_particle :=
  mk_particle 1 0 0 0 1 0 0 0 0 0.00001 ap.

Definition system (planet_ap force_ap : params) : memory :=
  mk_memory (mk_simulation 1) (mk_force force_ap) (planet planet_ap) star.

(** The environment of the scenario: the orbit routine answers [a = 1] and
    eccentricity [e]; [t_e] is left open. *)
Definition scenario (e : R) (t_e : option R) : environment :=
  mk_environment (fun _ _ _ => mk_orbit 1 e 0) star 1 t_e 1 (mk_vec3d 0 0 0).

(** ** The vectors that the evaluator assigns

    Lines 198-211 assign [aa], [ae] and [a].  The function declares none of
    them (its only vector is [am], at line 196, which it never uses), so they
    are objects that outlive the call: they are part of the state next to
    the memory behind the four pointers. *)
Record state : Type := mk_state {
  st_memory : memory;
  st_a : reb_vec3d;
  st_aa : reb_vec3d;
  st_ae : reb_vec3d
}.

(** The environment of a call made in state [s]: [a] holds what the state
    has in it. *)
Definition entering (E : environment) (s : state) : environment :=
  mk_environment (reb_tools_particle_to_orbit_err E) (env_primary E)
                 (env_ms E) (env_t_e E) (env_r E) (st_a s).

(** A call of the evaluator in state [s]: the value returned and the state
    left behind.  The null reads of lines 187 and 190 come before the first
    assignment of line 198, so a failing call leaves the three vectors as
    they were. *)
Definition evaluator_call (E : environment) (s : state)
    : outcome reb_vec3d * state :=
  match evaluator_body (entering E s) (st_memory s) with
  | (Returns l, m') =>
      (Returns (l_a l), mk_state m' (l_a l) (l_aa l) (l_ae l))
  | (NullDeref, m') =>
      (NullDeref, mk_state m' (st_a s) (st_aa s) (st_ae s))
  end.

(** A planet at [(1,0,0)] whose velocity [(1,1,1)] has a radial and a
    vertical component, around the star of the scenario. *)
Definition skew_planet (ap : params) : reb_particle :=
  mk_particle 1 0 0 1 1 1 0 0 0 0.00001 ap.

Definition skew_system (planet_ap force_ap : params) : memory :=
  mk_memory (mk_simulation 1) (mk_force force_ap) (skew_planet planet_ap) star.

(** ** Lemmas on the arithmetic *)

Lemma pow_real_exp0 (x : R) : pow_real x 0 = 1.
Proof.
  unfold pow_real.
  destruct (Req_dec_T x 0) as [_ | Hx].
  - destruct (Req_dec_T 0 0) as [_ | H0]; [reflexivity | contradiction H0; reflexivity].
  - unfold Rpower. rewrite Rmult_0_l. apply exp_0.
Qed.

Lemma pow_real_nonneg (x y : R) : 0 <= pow_real x y.
Proof.
  unfold pow_real.
  destruct (Req_dec_T x 0) as [_ | Hx].
  - destruct (Req_dec_T y 0); lra.
  - unfold Rpower. left. apply exp_pos.
Qed.

Lemma pow_real_base0 (y : R) : y <> 0 -> pow_real 0 y = 0.
Proof.
  intros Hy. unfold pow_real.
  destruct (Req_dec_T 0 0) as [_ | H0]; [| contradiction H0; reflexivity].
  destruct (Req_dec_T y 0) as [E | _]; [contradiction | reflexivity].
Qed.

Lemma pow_real_base1 (y : R) : pow_real 1 y = 1.
Proof.
  unfold pow_real.
  destruct (Req_dec_T 1 0) as [E | _]; [lra |].
  unfold Rpower. rewrite ln_1, Rmult_0_r. apply exp_0.
Qed.

(** ** Lemmas on the planet trap *)

Lemma planet_trap_outer (r h dedge : R) :
  dedge * (1 + h) < r -> rebx_calculate_planet_trap r h dedge = 1.
Proof.
  intros H. unfold rebx_calculate_planet_trap.
  destruct (Rgt_dec r (dedge * (1 + h))) as [_ | N]; [reflexivity | lra].
Qed.

Lemma planet_trap_zone (r h dedge : R) :
  dedge * (1 - h) < r -> r <= dedge * (1 + h) ->
  rebx_calculate_planet_trap r h dedge = 5.5 * cos (trap_angle r h dedge) - 4.5.
Proof.
  intros Hlo Hhi. unfold rebx_calculate_planet_trap.
  destruct (Rgt_dec r (dedge * (1 + h))) as [Y | _]; [lra |].
  destruct (Rlt_dec (dedge * (1 - h)) r) as [_ | N]; [reflexivity | lra].
Qed.

Lemma planet_trap_inner (r h dedge : R) :
  0 < h -> 0 < dedge ->
  r <= dedge * (1 - h) -> rebx_calculate_planet_trap r h dedge = -10.
Proof.
  intros Hh Hd H. unfold rebx_calculate_planet_trap.
  destruct (Rgt_dec r (dedge * (1 + h))) as [Y | _]; [nra |].
  destruct (Rlt_dec (dedge * (1 - h)) r) as [Y | _]; [lra | reflexivity].
Qed.

Lemma trap_angle_outer (h dedge : R) :
  trap_angle (dedge * (1 + h)) h dedge = 0.
Proof.
  unfold trap_angle.
  replace (dedge * (1 + h) - dedge * (1 + h)) with 0 by ring.
  unfold Rdiv. ring.
Qed.

Lemma trap_angle_inner (h dedge : R) :
  0 < h -> 0 < dedge -> trap_angle (dedge * (1 - h)) h dedge = PI.
Proof.
  intros Hh Hd. unfold trap_angle. field. split; lra.
Qed.

Lemma trap_angle_edge (h dedge : R) :
  0 < h -> 0 < dedge -> trap_angle dedge h dedge = PI / 2.
Proof.
  intros Hh Hd. unfold trap_angle. field. split; lra.
Qed.

Lemma trap_angle_range (r h dedge : R) :
  0 < h -> 0 < dedge ->
  dedge * (1 - h) < r -> r <= dedge * (1 + h) ->
  0 <= trap_angle r h dedge < PI.
Proof.
  intros Hh Hd Hlo Hhi.
  assert (Hpi := PI_RGT_0).
  assert (Hden : 0 < 4 * h * dedge) by nra.
  unfold trap_angle. split.
  - apply Rmult_le_pos; [nra | left; apply Rinv_0_lt_compat; exact Hden].
  - apply Rmult_lt_reg_r with (4 * h * dedge); [exact Hden |].
    unfold Rdiv. rewrite Rmult_assoc, Rinv_l by lra.
    nra.
Qed.

Lemma transition_bounds (t : R) : -10 <= 5.5 * cos t - 4.5 <= 1.
Proof.
  destruct (COS_bound t) as [Hl Hu]. split; lra.
Qed.

Lemma trap_transition_spec_agrees (r h dedge : R) :
  0 < h -> 0 < dedge ->
  trap_transition h dedge r = trapFactor_transition_spec r h dedge.
Proof.
  intros Hh Hd. unfold trap_transition, trapFactor_transition_spec, trap_angle.
  f_equal. f_equal. f_equal. field. split; lra.
Qed.

Lemma trap_transition_outer (h dedge : R) :
  trap_transition h dedge (dedge * (1 + h)) = 1.
Proof.
  unfold trap_transition. rewrite trap_angle_outer, cos_0. lra.
Qed.

Lemma trap_transition_inner (h dedge : R) :
  0 < h -> 0 < dedge -> trap_transition h dedge (dedge * (1 - h)) = -10.
Proof.
  intros Hh Hd. unfold trap_transition.
  rewrite trap_angle_inner, cos_PI by assumption. lra.
Qed.

(** The planet trap is its transition branch at the radius clamped into
    the trap zone. *)
Lemma planet_trap_clamp (r h dedge : R) :
  0 < h -> 0 < dedge ->
  rebx_calculate_planet_trap r h dedge
  = trap_transition h dedge (clamp (dedge * (1 - h)) (dedge * (1 + h)) r).
Proof.
  intros Hh Hd.
  assert (Hlh : dedge * (1 - h) < dedge * (1 + h)) by nra.
  unfold clamp.
  destruct (Rlt_le_dec (dedge * (1 + h)) r) as [Hout | Hin].
  - rewrite planet_trap_outer by assumption.
    rewrite Rmin_right by lra. rewrite Rmax_right by lra.
    symmetry. apply trap_transition_outer.
  - rewrite Rmin_left by lra.
    destruct (Rlt_le_dec (dedge * (1 - h)) r) as [Hzone | Hlow].
    + rewrite Rmax_right by lra. apply planet_trap_zone; assumption.
    + rewrite Rmax_left by lra. rewrite planet_trap_inner by assumption.
      symmetry. apply trap_transition_inner; assumption.
Qed.

Lemma clamp_contracts (lo hi x y : R) :
  Rabs (clamp lo hi x - clamp lo hi y) <= Rabs (x - y).
Proof.
  unfold clamp.
  repeat match goal with
         | |- context [Rmin ?a ?b] =>
             destruct (Rle_dec a b);
             [rewrite (Rmin_left a b) by lra | rewrite (Rmin_right a b) by lra]
         | |- context [Rmax ?a ?b] =>
             destruct (Rle_dec a b);
             [rewrite (Rmax_right a b) by lra | rewrite (Rmax_left a b) by lra]
         end;
  unfold Rabs;
  repeat match goal with
         | |- context [Rcase_abs ?a] => destruct (Rcase_abs a)
         end; lra.
Qed.

Lemma continuity_clamp (lo hi : R) : continuity (clamp lo hi).
Proof.
  intros x eps Heps. exists eps. split; [exact Heps |].
  intros y [_ Hy]. simpl in *. unfold R_dist in *.
  eapply Rle_lt_trans; [apply clamp_contracts | exact Hy].
Qed.

Lemma continuity_trap_transition (h dedge : R) :
  continuity (trap_transition h dedge).
Proof.
  unfold trap_transition, trap_angle. reg.
Qed.

Lemma continuity_planet_trap (h dedge : R) :
  0 < h -> 0 < dedge ->
  continuity (fun r => rebx_calculate_planet_trap r h dedge).
Proof.
  intros Hh Hd x.
  apply continuity_pt_locally_ext
    with (f := comp (trap_transition h dedge)
                    (clamp (dedge * (1 - h)) (dedge * (1 + h))))
         (a := 1).
  - lra.
  - intros y _. unfold comp. symmetry. apply planet_trap_clamp; assumption.
  - apply continuity_pt_comp.
    + apply continuity_clamp.
    + apply continuity_trap_transition.
Qed.

Lemma planet_trap_at_edge (h dedge : R) :
  0 < h -> 0 < dedge -> rebx_calculate_planet_trap dedge h dedge = -4.5.
Proof.
  intros Hh Hd. rewrite planet_trap_zone by nra.
  rewrite trap_angle_edge, cos_PI2 by assumption. lra.
Qed.

Lemma aspect_ratio_flat_disc (r : R) :
  rebx_calculating_the_aspect_ratio r 0 = 0.02.
Proof.
  unfold rebx_calculating_the_aspect_ratio.
  rewrite Ropp_0, !pow_real_exp0. lra.
Qed.

(** ** Claims on the disc profile and the planet trap *)

(** C4: for [0 < h] and [0 < r_edge] the planet trap is the three-piece
    function of the specification (1 at and beyond the outer boundary, the
    cosine transition strictly inside the zone, -10 at and below the inner
    boundary); the transition branch is exactly 1 and exactly -10 at the two
    boundaries, the trap is a continuous function of [r], and its value at
    [r = r_edge] is -4.5. *)
Theorem planet_trap_three_pieces (h r_edge : R) :
  0 < h -> 0 < r_edge ->
  (forall r, r_edge * (1 + h) <= r ->
             rebx_calculate_planet_trap r h r_edge = 1)
  /\ (forall r, r_edge * (1 - h) < r < r_edge * (1 + h) ->
                rebx_calculate_planet_trap r h r_edge
                = trapFactor_transition_spec r h r_edge)
  /\ (forall r, r <= r_edge * (1 - h) ->
                rebx_calculate_planet_trap r h r_edge = -10)
  /\ trapFactor_transition_spec (r_edge * (1 + h)) h r_edge = 1
  /\ trapFactor_transition_spec (r_edge * (1 - h)) h r_edge = -10
  /\ continuity (fun r => rebx_calculate_planet_trap r h r_edge)
  /\ rebx_calculate_planet_trap r_edge h r_edge = -4.5.
Proof.
  intros Hh Hd.
  assert (Hlh : r_edge * (1 - h) < r_edge * (1 + h)) by nra.
  repeat split.
  - intros r [Hr | Hr].
    + apply planet_trap_outer; exact Hr.
    + subst r. rewrite planet_trap_zone by lra.
      apply trap_transition_outer.
  - intros r [Hlo Hhi]. rewrite planet_trap_zone by lra.
    apply trap_transition_spec_agrees; assumption.
  - intros r Hr. apply planet_trap_inner; assumption.
  - rewrite <- trap_transition_spec_agrees by assumption.
    apply trap_transition_outer.
  - rewrite <- trap_transition_spec_agrees by assumption.
    apply trap_transition_inner; assumption.
  - apply continuity_planet_trap; assumption.
  - apply planet_trap_at_edge; assumption.
Qed.

Lemma planet_trap_three_pieces_witness :
  0 < 0.05 /\ 0 < 1 /\ rebx_calculate_planet_trap 1 0.05 1 = -4.5.
Proof.
  split; [lra | split; [lra |]].
  apply (planet_trap_three_pieces 0.05 1); lra.
Defined.

(** C10: for [0 < h] and [0 < r_edge] the planet trap returns a value in
    [[-10, 1]] at every [r]; where the transition branch is taken its angle
    lies in [[0, PI)] and [5.5 * cos angle - 4.5] is within the same
    bounds. *)
Theorem planet_trap_range (r h r_edge : R) :
  0 < h -> 0 < r_edge ->
  -10 <= rebx_calculate_planet_trap r h r_edge <= 1
  /\ (r_edge * (1 - h) < r -> r <= r_edge * (1 + h) ->
      0 <= trap_angle r h r_edge < PI
      /\ rebx_calculate_planet_trap r h r_edge
         = 5.5 * cos (trap_angle r h r_edge) - 4.5
      /\ -10 <= 5.5 * cos (trap_angle r h r_edge) - 4.5 <= 1).
Proof.
  intros Hh Hd. split.
  - unfold rebx_calculate_planet_trap.
    destruct (Rgt_dec r (r_edge * (1 + h))); [lra |].
    destruct (Rlt_dec (r_edge * (1 - h)) r); [apply transition_bounds | lra].
  - intros Hlo Hhi. split; [apply trap_angle_range; assumption |].
    split; [apply planet_trap_zone; assumption | apply transition_bounds].
Qed.

Lemma planet_trap_range_witness :
  0 < 0.05 /\ 0 < 1 /\ -10 <= rebx_calculate_planet_trap 1 0.05 1 <= 1.
Proof.
  split; [lra | split; [lra |]].
  apply (planet_trap_range 1 0.05 1); lra.
Defined.

(** C8: at [beta = 0] the aspect ratio is the constant 0.02 for every
    radius [0 < r]. *)
Theorem aspect_ratio_beta_zero (r : R) :
  0 < r -> rebx_calculating_the_aspect_ratio r 0 = 0.02.
Proof.
  intros _. apply aspect_ratio_flat_disc.
Qed.

Lemma aspect_ratio_beta_zero_witness :
  0 < 3 /\ rebx_calculating_the_aspect_ratio 3 0 = 0.02.
Proof.
  split; [lra | apply (aspect_ratio_beta_zero 3); lra].
Defined.

(** ** Lemmas on the timescales *)

Lemma pow_real_pos (x y : R) : 0 < x -> 0 < pow_real x y.
Proof.
  intros Hx. unfold pow_real.
  destruct (Req_dec_T x 0) as [E | _]; [lra |].
  unfold Rpower. apply exp_pos.
Qed.

Lemma inverse_orbital_speed (G ms sma : R) :
  0 < G -> 0 < ms -> 0 < sma ->
  1 / sqrt ((G * ms) / sma) = sqrt (sma / (G * ms)).
Proof.
  intros HG Hms Hsma.
  replace (sma / (G * ms)) with (/ ((G * ms) / sma)) by (field; lra).
  rewrite sqrt_inv. unfold Rdiv. ring.
Qed.

Lemma inverse_angular_frequency (G ms sma : R) :
  0 < G -> 0 < ms -> 0 < sma ->
  sqrt (sma ^ 3 / (G * ms)) = sma * sqrt (sma / (G * ms)).
Proof.
  intros HG Hms Hsma.
  assert (Hq : 0 < sma / (G * ms)).
  { apply Rdiv_lt_0_compat; nra. }
  replace (sma ^ 3 / (G * ms)) with ((sma * sma) * (sma / (G * ms)))
    by (field; lra).
  rewrite sqrt_mult by nra.
  rewrite sqrt_square by lra. reflexivity.
Qed.

(** What the code computes against the formula of the specification: the
    two differ by the factor [sma]. *)
Lemma damping_timescale_vs_spec (G mp ms sma r sd0 alpha ar : R) :
  0 < G -> 0 < mp -> 0 < ms -> 0 < sma -> 0 < r -> 0 < sd0 ->
  waveTimescale_spec G mp ms sma r sd0 alpha ar
  = sma * rebx_calculating_damping_timescale G mp ms sma r sd0 alpha ar.
Proof.
  intros HG Hmp Hms Hsma Hr Hsd0.
  assert (Hp := pow_real_pos r (- alpha) Hr).
  unfold waveTimescale_spec, rebx_calculating_damping_timescale.
  rewrite inverse_orbital_speed, inverse_angular_frequency by assumption.
  field. repeat split; lra.
Qed.

Lemma sqrt_quarter : sqrt (1 * 1 / 4) = 1 / 2.
Proof. apply sqrt_lem_1; lra. Qed.

Lemma even_power_4 (x : R) : 1 < x -> 1 < x ^ 4.
Proof.
  intros Hx. replace (x ^ 4) with ((x * x) * (x * x)) by ring.
  assert (Hxx : 1 < x * x) by nra. nra.
Qed.

Lemma power_6_nonneg (x : R) : 0 <= x ^ 6.
Proof.
  replace (x ^ 6) with ((x * x * x) * (x * x * x)) by ring.
  apply Rle_0_sqr.
Qed.

Lemma Pe_numerator_pos (ar ecc : R) : 1 <= Pe_numerator ar ecc.
Proof.
  unfold Pe_numerator.
  assert (H1 := pow_real_nonneg (ecc / (2.25 * ar)) 1.2).
  assert (H2 := power_6_nonneg (ecc / (2.84 * ar))).
  lra.
Qed.

Lemma Pe_denominator_at_singularity (Hr : R) :
  0 < Hr -> Pe_denominator Hr (2.02 * Hr) = 0.
Proof.
  intros H. unfold Pe_denominator.
  replace (2.02 * Hr / (2.02 * Hr)) with 1 by (field; lra). ring.
Qed.

Lemma Pe_denominator_beyond_singularity (Hr e : R) :
  0 < Hr -> 2.02 * Hr < e -> Pe_denominator Hr e < 0.
Proof.
  intros H He. unfold Pe_denominator.
  assert (Hx : 1 < e / (2.02 * Hr)).
  { apply Rmult_lt_reg_r with (2.02 * Hr); [lra |].
    unfold Rdiv. rewrite Rmult_assoc, Rinv_l by lra. lra. }
  apply even_power_4 in Hx. lra.
Qed.

Lemma Pe_negative_beyond_singularity (Hr e : R) :
  0 < Hr -> 2.02 * Hr < e -> rebx_calculating_Pe_factor Hr e < 0.
Proof.
  intros H He. unfold rebx_calculating_Pe_factor, Rdiv.
  assert (Hn := Pe_numerator_pos Hr e).
  assert (Hd := Pe_denominator_beyond_singularity Hr e H He).
  apply Rinv_lt_0_compat in Hd. nra.
Qed.

Lemma Pe_at_zero_eccentricity (ar : R) : rebx_calculating_Pe_factor ar 0 = 1.
Proof.
  unfold rebx_calculating_Pe_factor, Pe_numerator, Pe_denominator.
  unfold Rdiv at 2 3 4. rewrite !Rmult_0_l.
  rewrite pow_real_base0 by lra. field.
Qed.

(** ** Claim on the wave timescale *)

(** C2: at [G = 1], [mp = 1], [ms = 1], [sma = 4], [r = 1], [sd0 = 1],
    [alpha = 0], [ar = 1] the code returns 1/8, the value of
    [(ms^2 / (mp*sd*sma^2)) * ar^4 / sqrt (G*ms/sma)], while the formula of
    the specification with [sqrt (a^3 / (G*mStar))] gives 1/2. *)
Theorem damping_timescale_at_sma_4 :
  rebx_calculating_damping_timescale 1 1 1 4 1 1 0 1 = 1 / 8
  /\ waveTimescale_spec 1 1 1 4 1 1 0 1 = 1 / 2
  /\ rebx_calculating_damping_timescale 1 1 1 4 1 1 0 1
     <> waveTimescale_spec 1 1 1 4 1 1 0 1.
Proof.
  assert (Hcode : rebx_calculating_damping_timescale 1 1 1 4 1 1 0 1 = 1 / 8).
  { unfold rebx_calculating_damping_timescale.
    rewrite pow_real_base1, sqrt_quarter. field. }
  assert (Hspec : waveTimescale_spec 1 1 1 4 1 1 0 1 = 1 / 2).
  { rewrite damping_timescale_vs_spec by lra. rewrite Hcode. field. }
  split; [exact Hcode | split; [exact Hspec |]].
  rewrite Hcode, Hspec. lra.
Qed.

(** ** Lemmas on the evaluator *)

Lemma frame_ret {A : Type} (v : A) : frame_preserving (ret v).
Proof. intros m. reflexivity. Qed.

Lemma frame_read {A : Type} (f : memory -> A) : frame_preserving (read f).
Proof. intros m. reflexivity. Qed.

Lemma frame_deref (ptr : option R) : frame_preserving (deref ptr).
Proof. intros m. reflexivity. Qed.

Lemma frame_bind {A B : Type} (c : M A) (k : A -> M B) :
  frame_preserving c -> (forall v, frame_preserving (k v)) ->
  frame_preserving (bind c k).
Proof.
  intros Hc Hk m. unfold bind.
  specialize (Hc m). destruct (c m) as [[v |] m']; simpl in Hc; subst m'.
  - apply Hk.
  - reflexivity.
Qed.

(** A store is not frame preserving: the property is not void. *)
Lemma write_changes_memory :
  ~ frame_preserving
      (write (fun m => mk_memory (mk_simulation (sim_G (at_sim m) + 1))
                                 (at_force m) (at_p m) (at_source m))).
Proof.
  intros H. specialize (H (system [] [])).
  unfold write, system in H. simpl in H.
  apply (f_equal (fun m => sim_G (at_sim m))) in H. simpl in H. lra.
Qed.

Ltac frame_step :=
  match goal with
  | |- frame_preserving (bind _ _) => apply frame_bind; [| intros ?]
  | |- frame_preserving (ret _) => apply frame_ret
  | |- frame_preserving (read _) => apply frame_read
  | |- frame_preserving (deref _) => apply frame_deref
  | |- frame_preserving (particle_param _) => apply frame_read
  | |- frame_preserving (force_param _) => apply frame_read
  | |- frame_preserving (match ?x with _ => _ end) => destruct x
  end.

Lemma frame_evaluator_body (E : environment) :
  frame_preserving (evaluator_body E).
Proof.
  unfold evaluator_body. repeat frame_step.
Qed.

Lemma frame_evaluator (E : environment) :
  frame_preserving (rebx_calculate_modify_orbits_with_type_I_migration E).
Proof.
  unfold rebx_calculate_modify_orbits_with_type_I_migration.
  apply frame_bind; [apply frame_evaluator_body | intros l; apply frame_ret].
Qed.

(** The value returned is the local [a] of the body. *)
Lemma evaluator_of_body (E : environment) (m : memory) :
  fst (rebx_calculate_modify_orbits_with_type_I_migration E m)
  = match fst (evaluator_body E m) with
    | Returns l => Returns (l_a l)
    | NullDeref => NullDeref
    end.
Proof.
  unfold rebx_calculate_modify_orbits_with_type_I_migration, bind, ret.
  destruct (evaluator_body E m) as [[l |] m']; reflexivity.
Qed.

Ltac run_body :=
  cbv [evaluator_body bind particle_param force_param read deref ret].

(** Case analysis on every pointer that the body tests or dereferences. *)
Ltac body_cases :=
  run_body;
  repeat match goal with
         | H : _ = Some _ |- _ => rewrite H
         | H : _ = None |- _ => rewrite H
         end;
  repeat match goal with
         | |- context [match ?x with Some _ => _ | None => _ end] =>
             destruct x eqn:?
         end;
  cbn [fst snd is_null negb orb andb
       l_invtau_a l_tau_e l_tau_inc l_am l_aa l_ae l_a].

(** The body fails exactly when a branch that is entered dereferences a
    null pointer. *)
Lemma body_null_deref_iff (E : environment) (m : memory) :
  fst (evaluator_body E m) = NullDeref
  <-> ((semimajor_path_taken m && semimajor_path_null m)
       || (eccentricity_path_taken E && eccentricity_path_null m))%bool = true.
Proof.
  unfold semimajor_path_taken, semimajor_path_null,
    eccentricity_path_taken, eccentricity_path_null.
  body_cases; split; intros H; try reflexivity; try discriminate H.
Qed.

(** With [tau_a] set and the five disc parameters set, [invtau_a] is the
    trap factor over the disc-derived timescale; the value of [tau_a] is
    not read. *)
Lemma body_semimajor_path (E : environment) (m : memory)
    (va vh vd vs val vb : R) :
  particle_lookup m "tau_a" = Some va ->
  force_lookup m "disc_edge_width" = Some vh ->
  force_lookup m "inner_disc_edge" = Some vd ->
  force_lookup m "initial_disc_surface_density" = Some vs ->
  force_lookup m "alpha" = Some val ->
  force_lookup m "beta" = Some vb ->
  exists l, fst (evaluator_body E m) = Returns l
            /\ l_invtau_a l = disc_invtau_a E m vh vd vs val vb.
Proof.
  intros Ha Hh Hd Hs Hal Hb.
  body_cases; eexists; (split; [reflexivity | reflexivity]).
Qed.

Lemma body_semimajor_skipped (E : environment) (m : memory) (l : locals) :
  particle_lookup m "tau_a" = None ->
  fst (evaluator_body E m) = Returns l -> l_invtau_a l = 0.
Proof.
  intros Ha. body_cases; intros H; inversion H; reflexivity.
Qed.

(** With [t_e] non-null and the three disc parameters of line 190 set,
    [tau_e] is the disc-derived timescale whenever the body returns. *)
Lemma body_eccentricity_path (E : environment) (m : memory) (l : locals)
    (t vs val vb : R) :
  env_t_e E = Some t ->
  force_lookup m "initial_disc_surface_density" = Some vs ->
  force_lookup m "alpha" = Some val ->
  force_lookup m "beta" = Some vb ->
  fst (evaluator_body E m) = Returns l ->
  l_tau_e l = Finite (disc_tau_e E m vs val vb).
Proof.
  intros Ht Hs Hal Hb.
  body_cases; intros H; inversion H; reflexivity.
Qed.

Lemma body_eccentricity_skipped (E : environment) (m : memory) (l : locals) :
  env_t_e E = None ->
  fst (evaluator_body E m) = Returns l -> l_tau_e l = PlusInf.
Proof.
  intros Ht. body_cases; intros H; inversion H; reflexivity.
Qed.

Lemma body_inclination (E : environment) (m : memory) (l : locals) :
  fst (evaluator_body E m) = Returns l ->
  l_tau_inc l = match particle_lookup m "tau_inc" with
                | Some v => Finite v
                | None => PlusInf
                end.
Proof.
  body_cases; intros H; inversion H; reflexivity.
Qed.

(** The returned [a] is the undeclared [a] after the block of lines
    206-212. *)
Lemma body_returned_vector (E : environment) (m : memory) (l : locals) :
  fst (evaluator_body E m) = Returns l ->
  l_a l = add_ecc_inc_term (l_tau_e l) (l_tau_inc l)
            (p_x (at_p m) - p_x (at_source m))
            (p_y (at_p m) - p_y (at_source m))
            (p_z (at_p m) - p_z (at_source m))
            (p_vx (at_p m) - p_vx (at_source m))
            (p_vy (at_p m) - p_vy (at_source m))
            (p_vz (at_p m) - p_vz (at_source m))
            (r2_of m) (env_a E).
Proof.
  body_cases; intros H; inversion H; reflexivity.
Qed.

Lemma body_returns_or_fails (E : environment) (m : memory) :
  fst (evaluator_body E m) <> NullDeref ->
  exists l, fst (evaluator_body E m) = Returns l.
Proof.
  destruct (fst (evaluator_body E m)) as [l |]; intros H.
  - exists l. reflexivity.
  - contradiction H. reflexivity.
Qed.

Lemma add_ecc_inc_term_both_infinite (dx dy dz dvx dvy dvz r2 : R)
    (a : reb_vec3d) :
  add_ecc_inc_term PlusInf PlusInf dx dy dz dvx dvy dvz r2 a = a.
Proof. reflexivity. Qed.

Lemma vec_sub_self (v : reb_vec3d) : vec_sub v v = mk_vec3d 0 0 0.
Proof.
  unfold vec_sub. f_equal; ring.
Qed.

Lemma xreal_finite_or_infinite (t : xreal) :
  lt_INFINITY t = true \/ t = PlusInf.
Proof.
  destruct t; [left | right]; reflexivity.
Qed.

(** ** Lemmas on the scenario *)

Lemma scenario_distance (planet_ap force_ap : params) :
  sqrt (r2_of (system planet_ap force_ap)) = 1.
Proof.
  unfold r2_of, system, planet, star. cbn [at_p at_source p_x p_y p_z].
  replace ((1 - 0) * (1 - 0) + (0 - 0) * (0 - 0) + (0 - 0) * (0 - 0))
    with 1 by ring.
  apply sqrt_1.
Qed.

Lemma scenario_wave_timescale :
  rebx_calculating_damping_timescale 1 0.00001 1 1 1 0.001 1 0.02 = 16.
Proof.
  unfold rebx_calculating_damping_timescale.
  rewrite pow_real_base1.
  replace (1 * 1 / 1) with 1 by field.
  rewrite sqrt_1. lra.
Qed.

Lemma scenario_semi_major_axis_timescale :
  reb_calculating_semi_major_axis_damping_timescale
    1 0.00001 1 1 1 0.001 1 0.02 0 = 0.0128 / 3.8.
Proof.
  unfold reb_calculating_semi_major_axis_damping_timescale.
  rewrite scenario_wave_timescale, Pe_at_zero_eccentricity. lra.
Qed.

Lemma scenario_eccentricity_timescale :
  rebx_calculating_eccentricity_damping_timescale
    1 0.00001 1 1 1 0.001 1 0.02 0 = 16 / 0.78.
Proof.
  unfold rebx_calculating_eccentricity_damping_timescale.
  rewrite scenario_wave_timescale. lra.
Qed.

Lemma scenario_disc_invtau_a (e : R) (t : option R) (planet_ap : params) :
  disc_invtau_a (scenario e t) (system planet_ap disc_ap) 0.05 1 0.001 1 0
  = -4.5 / reb_calculating_semi_major_axis_damping_timescale
             1 0.00001 1 1 1 0.001 1 0.02 e.
Proof.
  unfold disc_invtau_a. rewrite scenario_distance, aspect_ratio_flat_disc.
  cbn [orbit_of scenario reb_tools_particle_to_orbit_err o_a o_e env_ms
       system planet at_sim at_p sim_G p_m].
  rewrite planet_trap_at_edge by lra. reflexivity.
Qed.

Lemma scenario_disc_tau_e (t : option R) (planet_ap force_ap : params) :
  disc_tau_e (scenario 0 t) (system planet_ap force_ap) 0.001 1 0
  = 16 / 0.78.
Proof.
  unfold disc_tau_e. rewrite scenario_distance, aspect_ratio_flat_disc.
  cbn [orbit_of scenario reb_tools_particle_to_orbit_err o_a o_e env_ms
       system planet at_sim at_p sim_G p_m].
  apply scenario_eccentricity_timescale.
Qed.

(** ** Claims on the evaluator *)

(** C1: with the override [tau_a = 5] set on the planet of the scenario and
    the disc configured, the evaluator stores in [invtau_a] the disc-derived
    rate -1335.9375 (the trap factor -4.5 over [t_a]), not [1/5]; with no
    disc parameter set it reads through a null pointer. *)
Theorem tau_a_override_evaluated (t : option R) :
  (exists l,
      fst (evaluator_body (scenario 0 t) (system [("tau_a"%string, 5)] disc_ap))
      = Returns l
      /\ l_invtau_a l = -1335.9375
      /\ l_invtau_a l <> 1 / 5)
  /\ fst (rebx_calculate_modify_orbits_with_type_I_migration
            (scenario 0 t) (system [("tau_a"%string, 5)] []))
     = NullDeref.
Proof.
  split.
  - destruct (body_semimajor_path (scenario 0 t)
                (system [("tau_a"%string, 5)] disc_ap) 5 0.05 1 0.001 1 0)
      as [l [Hl Hv]]; try reflexivity.
    exists l. split; [exact Hl |].
    rewrite scenario_disc_invtau_a, scenario_semi_major_axis_timescale in Hv.
    assert (Hval : l_invtau_a l = -1335.9375) by (rewrite Hv; lra).
    split; [exact Hval | rewrite Hval; lra].
  - rewrite evaluator_of_body.
    assert (H : fst (evaluator_body (scenario 0 t)
                       (system [("tau_a"%string, 5)] [])) = NullDeref).
    { apply body_null_deref_iff. reflexivity. }
    rewrite H. reflexivity.
Qed.

(** C3: with the override [tau_e = 5] set on the planet of the scenario and
    the disc configured, [tau_e] is never the override: it is the
    disc-derived [16/0.78] when the pointer [t_e] tested at line 189 is
    non-null and [INFINITY] when it is null. *)
Theorem tau_e_override_evaluated (t : option R) :
  exists l,
    fst (evaluator_body (scenario 0 t) (system [("tau_e"%string, 5)] disc_ap))
    = Returns l
    /\ l_tau_e l = match t with
                   | Some _ => Finite (16 / 0.78)
                   | None => PlusInf
                   end
    /\ l_tau_e l <> Finite 5.
Proof.
  destruct (body_returns_or_fails (scenario 0 t)
              (system [("tau_e"%string, 5)] disc_ap)) as [l Hl].
  { intros H. apply body_null_deref_iff in H.
    destruct t; discriminate H. }
  exists l. split; [exact Hl |].
  destruct t as [t |].
  - assert (Hv := body_eccentricity_path (scenario 0 (Some t))
                    (system [("tau_e"%string, 5)] disc_ap) l t 0.001 1 0
                    eq_refl eq_refl eq_refl eq_refl Hl).
    rewrite scenario_disc_tau_e in Hv.
    split; [exact Hv |].
    rewrite Hv. intros H. inversion H. lra.
  - assert (Hv := body_eccentricity_skipped (scenario 0 None)
                    (system [("tau_e"%string, 5)] disc_ap) l eq_refl Hl).
    split; [exact Hv | rewrite Hv; discriminate].
Qed.

(** With [t_e] null and [tau_inc] unset the block of lines 206-212 is
    skipped. *)
Lemma body_without_timescales (E : environment) (m : memory) (l : locals) :
  env_t_e E = None ->
  particle_lookup m "tau_inc" = None ->
  fst (evaluator_body E m) = Returns l ->
  l_tau_e l = PlusInf /\ l_tau_inc l = PlusInf /\ l_a l = env_a E.
Proof.
  intros Ht Hinc Hl.
  assert (He := body_eccentricity_skipped E m l Ht Hl).
  assert (Hi := body_inclination E m l Hl). rewrite Hinc in Hi.
  assert (Ha := body_returned_vector E m l Hl).
  rewrite He, Hi, add_ecc_inc_term_both_infinite in Ha.
  repeat split; assumption.
Qed.

(** The vector [ae] of lines 202-204, which is not part of the returned
    value, vanishes as well when [tau_e] is [INFINITY]. *)
Lemma body_ae_infinite (E : environment) (m : memory) (l : locals) :
  fst (evaluator_body E m) = Returns l ->
  l_tau_e l = PlusInf -> l_ae l = mk_vec3d 0 0 0.
Proof.
  body_cases; intros H; inversion H; subst l;
    cbn [l_tau_e l_ae]; intros Hinf; try discriminate Hinf; reflexivity.
Qed.

Lemma contribution_needs_finite_timescale (E : environment) (m : memory)
    (l : locals) :
  fst (evaluator_body E m) = Returns l ->
  ecc_inc_contribution E l <> mk_vec3d 0 0 0 ->
  lt_INFINITY (l_tau_e l) = true \/ lt_INFINITY (l_tau_inc l) = true.
Proof.
  intros Hl Hc.
  destruct (xreal_finite_or_infinite (l_tau_e l)) as [He | He];
    [left; exact He |].
  destruct (xreal_finite_or_infinite (l_tau_inc l)) as [Hi | Hi];
    [right; exact Hi |].
  exfalso. apply Hc.
  assert (Ha := body_returned_vector E m l Hl).
  rewrite He, Hi, add_ecc_inc_term_both_infinite in Ha.
  unfold ecc_inc_contribution. rewrite Ha. apply vec_sub_self.
Qed.

(** C7: when the pointer [t_e] is null (no disc-derived eccentricity
    damping) and [tau_inc] is unset, and the evaluator does not fail in
    the branch of line 187, both [tau_e] and [tau_inc] are [INFINITY],
    nothing is added to the returned [a] (the contribution of lines 206-212
    is the zero vector), the unused [ae] of lines 202-204 is zero too, and
    the evaluator returns [a] as it was.  In every
    run, a non-zero contribution requires [tau_e] or [tau_inc] to be below
    [INFINITY]. *)
Theorem ecc_inc_term_zero_without_timescales (E : environment) (m : memory) :
  env_t_e E = None ->
  particle_lookup m "tau_inc" = None ->
  (semimajor_path_taken m && semimajor_path_null m)%bool = false ->
  (exists l, fst (evaluator_body E m) = Returns l
             /\ l_tau_e l = PlusInf
             /\ l_tau_inc l = PlusInf
             /\ ecc_inc_contribution E l = mk_vec3d 0 0 0
             /\ l_ae l = mk_vec3d 0 0 0)
  /\ fst (rebx_calculate_modify_orbits_with_type_I_migration E m)
     = Returns (env_a E)
  /\ (forall E' m' l',
         fst (evaluator_body E' m') = Returns l' ->
         ecc_inc_contribution E' l' <> mk_vec3d 0 0 0 ->
         lt_INFINITY (l_tau_e l') = true \/ lt_INFINITY (l_tau_inc l') = true).
Proof.
  intros Ht Hinc Hpath.
  destruct (body_returns_or_fails E m) as [l Hl].
  { intros H. apply body_null_deref_iff in H.
    unfold eccentricity_path_taken in H. rewrite Hpath, Ht in H.
    discriminate H. }
  destruct (body_without_timescales E m l Ht Hinc Hl) as [He [Hi Ha]].
  split; [| split].
  - exists l. repeat split; try assumption.
    + unfold ecc_inc_contribution. rewrite Ha. apply vec_sub_self.
    + apply (body_ae_infinite E m); assumption.
  - rewrite evaluator_of_body, Hl, Ha. reflexivity.
  - apply contribution_needs_finite_timescale.
Qed.

Lemma ecc_inc_term_zero_without_timescales_witness :
  fst (rebx_calculate_modify_orbits_with_type_I_migration
         (scenario 0 None) (system [] disc_ap))
  = Returns (mk_vec3d 0 0 0).
Proof.
  apply (ecc_inc_term_zero_without_timescales
           (scenario 0 None) (system [] disc_ap)); reflexivity.
Defined.

(** The evaluator leaves the memory behind its four pointers (the
    simulation, the force, the particle and the source) as it found it,
    whether it returns a vector or fails. *)
Theorem evaluator_leaves_memory_unchanged (E : environment) (m : memory) :
  snd (rebx_calculate_modify_orbits_with_type_I_migration E m) = m.
Proof.
  apply frame_evaluator.
Qed.

(** C5, as the code has it: with [tau_a] set and the disc configured the
    evaluator returns for every eccentricity, also at and beyond
    [2.02 * Hr], where the denominator of [Pe] is zero at [e = 2.02 * Hr]
    and negative beyond it, and [Pe] itself is negative beyond it. *)
Theorem Pe_singularity_unguarded (E : environment) (m : memory)
    (va vh vd vs val vb : R) :
  particle_lookup m "tau_a" = Some va ->
  force_lookup m "disc_edge_width" = Some vh ->
  force_lookup m "inner_disc_edge" = Some vd ->
  force_lookup m "initial_disc_surface_density" = Some vs ->
  force_lookup m "alpha" = Some val ->
  force_lookup m "beta" = Some vb ->
  0 < rebx_calculating_the_aspect_ratio (sqrt (r2_of m)) vb ->
  2.02 * rebx_calculating_the_aspect_ratio (sqrt (r2_of m)) vb
  <= o_e (orbit_of E m) ->
  (exists l, fst (evaluator_body E m) = Returns l
             /\ l_invtau_a l = disc_invtau_a E m vh vd vs val vb)
  /\ Pe_denominator (rebx_calculating_the_aspect_ratio (sqrt (r2_of m)) vb)
                    (o_e (orbit_of E m)) <= 0
  /\ (o_e (orbit_of E m)
      = 2.02 * rebx_calculating_the_aspect_ratio (sqrt (r2_of m)) vb ->
      Pe_denominator (rebx_calculating_the_aspect_ratio (sqrt (r2_of m)) vb)
                     (o_e (orbit_of E m)) = 0)
  /\ (2.02 * rebx_calculating_the_aspect_ratio (sqrt (r2_of m)) vb
      < o_e (orbit_of E m) ->
      rebx_calculating_Pe_factor
        (rebx_calculating_the_aspect_ratio (sqrt (r2_of m)) vb)
        (o_e (orbit_of E m)) < 0).
Proof.
  intros Ha Hh Hd Hs Hal Hb HHr He.
  split; [| split; [| split]].
  - apply (body_semimajor_path E m va); assumption.
  - destruct He as [He | He].
    + left. apply Pe_denominator_beyond_singularity; assumption.
    + right. rewrite <- He. apply Pe_denominator_at_singularity; exact HHr.
  - intros Heq. rewrite Heq.
    apply Pe_denominator_at_singularity; exact HHr.
  - intros Hlt. apply Pe_negative_beyond_singularity; assumption.
Qed.

Lemma Pe_singularity_unguarded_witness :
  exists l,
    fst (evaluator_body (scenario 0.5 None)
           (system [("tau_a"%string, 5)] disc_ap)) = Returns l
    /\ l_invtau_a l
       = disc_invtau_a (scenario 0.5 None)
           (system [("tau_a"%string, 5)] disc_ap) 0.05 1 0.001 1 0.
Proof.
  apply (Pe_singularity_unguarded (scenario 0.5 None)
           (system [("tau_a"%string, 5)] disc_ap) 5 0.05 1 0.001 1 0);
    try reflexivity.
  - rewrite aspect_ratio_flat_disc. lra.
  - rewrite aspect_ratio_flat_disc.
    cbn [orbit_of scenario reb_tools_particle_to_orbit_err o_e]. lra.
Defined.

(** C5, refuted as stated: in the scenario with eccentricity 0.5, beyond
    [2.02 * Hr = 0.0404], and [tau_a] set, the evaluator computes [invtau_a]
    from a negative [Pe] and returns the vector [a]. *)
Lemma evaluator_returns_beyond_Pe_singularity :
  2.02 * rebx_calculating_the_aspect_ratio
           (sqrt (r2_of (system [("tau_a"%string, 5)] disc_ap))) 0 <= 0.5
  /\ rebx_calculating_Pe_factor 0.02 0.5 < 0
  /\ (exists l,
         fst (evaluator_body (scenario 0.5 None)
                (system [("tau_a"%string, 5)] disc_ap)) = Returns l
         /\ l_invtau_a l
            = -4.5 / reb_calculating_semi_major_axis_damping_timescale
                       1 0.00001 1 1 1 0.001 1 0.02 0.5)
  /\ fst (rebx_calculate_modify_orbits_with_type_I_migration
            (scenario 0.5 None) (system [("tau_a"%string, 5)] disc_ap))
     = Returns (mk_vec3d 0 0 0).
Proof.
  split; [rewrite aspect_ratio_flat_disc; lra |].
  split; [apply Pe_negative_beyond_singularity; lra |].
  destruct (body_semimajor_path (scenario 0.5 None)
              (system [("tau_a"%string, 5)] disc_ap) 5 0.05 1 0.001 1 0)
    as [l [Hl Hv]]; try reflexivity.
  split.
  - exists l. split; [exact Hl |].
    rewrite scenario_disc_invtau_a in Hv. exact Hv.
  - rewrite evaluator_of_body, Hl.
    destruct (body_without_timescales (scenario 0.5 None)
                (system [("tau_a"%string, 5)] disc_ap) l eq_refl eq_refl Hl)
      as [_ [_ Ha]].
    rewrite Ha. reflexivity.
Qed.




(** ** Further properties of the planet trap *)

Lemma clamp_monotone (lo hi x y : R) :
  x <= y -> clamp lo hi x <= clamp lo hi y.
Proof.
  intros Hxy. unfold clamp.
  repeat match goal with
         | |- context [Rmin ?a ?b] =>
             destruct (Rle_dec a b);
             [rewrite (Rmin_left a b) by lra | rewrite (Rmin_right a b) by lra]
         | |- context [Rmax ?a ?b] =>
             destruct (Rle_dec a b);
             [rewrite (Rmax_right a b) by lra | rewrite (Rmax_left a b) by lra]
         end; lra.
Qed.

Lemma clamp_in_zone (lo hi r : R) :
  lo <= hi -> lo <= clamp lo hi r <= hi.
Proof.
  intros Hlh. unfold clamp. split.
  - apply Rmax_l.
  - apply Rmax_lub; [exact Hlh | apply Rmin_r].
Qed.

Lemma trap_angle_closed_range (r h dedge : R) :
  0 < h -> 0 < dedge ->
  dedge * (1 - h) <= r -> r <= dedge * (1 + h) ->
  0 <= trap_angle r h dedge <= PI.
Proof.
  intros Hh Hd Hlo Hhi.
  assert (Hpi := PI_RGT_0).
  assert (Hden : 0 < 4 * h * dedge) by nra.
  unfold trap_angle. split.
  - apply Rmult_le_pos; [nra | left; apply Rinv_0_lt_compat; exact Hden].
  - apply Rmult_le_reg_r with (4 * h * dedge); [exact Hden |].
    unfold Rdiv. rewrite Rmult_assoc, Rinv_l by lra.
    nra.
Qed.

Lemma trap_angle_decreasing (x y h dedge : R) :
  0 < h -> 0 < dedge -> x < y ->
  trap_angle y h dedge < trap_angle x h dedge.
Proof.
  intros Hh Hd Hxy.
  assert (Hpi := PI_RGT_0).
  assert (Hden : 0 < / (4 * h * dedge)).
  { apply Rinv_0_lt_compat. nra. }
  unfold trap_angle, Rdiv.
  apply Rmult_lt_compat_r; [exact Hden | nra].
Qed.

Lemma trap_transition_increasing (x y h dedge : R) :
  0 < h -> 0 < dedge ->
  dedge * (1 - h) <= x -> x < y -> y <= dedge * (1 + h) ->
  trap_transition h dedge x < trap_transition h dedge y.
Proof.
  intros Hh Hd Hlo Hxy Hhi.
  assert (Hx := trap_angle_closed_range x h dedge Hh Hd Hlo (ltac:(lra))).
  assert (Hy := trap_angle_closed_range y h dedge Hh Hd (ltac:(lra)) Hhi).
  assert (Ha := trap_angle_decreasing x y h dedge Hh Hd Hxy).
  assert (Hc : cos (trap_angle x h dedge) < cos (trap_angle y h dedge)).
  { apply cos_decreasing_1; lra. }
  unfold trap_transition. lra.
Qed.

Lemma planet_trap_nondecreasing (x y h dedge : R) :
  0 < h -> 0 < dedge -> x <= y ->
  rebx_calculate_planet_trap x h dedge <= rebx_calculate_planet_trap y h dedge.
Proof.
  intros Hh Hd Hxy.
  assert (Hlh : dedge * (1 - h) <= dedge * (1 + h)) by nra.
  rewrite !planet_trap_clamp by assumption.
  assert (Hc := clamp_monotone (dedge * (1 - h)) (dedge * (1 + h)) x y Hxy).
  assert (Hx := clamp_in_zone (dedge * (1 - h)) (dedge * (1 + h)) x Hlh).
  assert (Hy := clamp_in_zone (dedge * (1 - h)) (dedge * (1 + h)) y Hlh).
  destruct Hc as [Hc | Hc].
  - left. apply trap_transition_increasing; try assumption; lra.
  - rewrite Hc. right. reflexivity.
Qed.

(** X1: for [0 < h] and [0 < dedge] the planet trap never decreases with
    the radius, and inside the trap zone, from [dedge * (1 - h)] to
    [dedge * (1 + h)], it increases strictly. *)
Theorem planet_trap_monotone (x y h dedge : R) :
  0 < h -> 0 < dedge -> x < y ->
  rebx_calculate_planet_trap x h dedge <= rebx_calculate_planet_trap y h dedge
  /\ (dedge * (1 - h) <= x -> y <= dedge * (1 + h) ->
      rebx_calculate_planet_trap x h dedge
      < rebx_calculate_planet_trap y h dedge).
Proof.
  intros Hh Hd Hxy. split.
  - apply planet_trap_nondecreasing; [assumption | assumption | lra].
  - intros Hlo Hhi.
    assert (Hlh : dedge * (1 - h) <= dedge * (1 + h)) by nra.
    rewrite !planet_trap_clamp by assumption.
    unfold clamp.
    rewrite (Rmin_left x) by lra. rewrite (Rmin_left y) by lra.
    rewrite (Rmax_right _ x) by lra. rewrite (Rmax_right _ y) by lra.
    apply trap_transition_increasing; assumption.
Qed.

Lemma planet_trap_monotone_witness :
  rebx_calculate_planet_trap 0.98 0.05 1 <= rebx_calculate_planet_trap 1.02 0.05 1.
Proof.
  apply (planet_trap_monotone 0.98 1.02 0.05 1); lra.
Defined.

(** X2: for [0 < h] and [0 < dedge] the planet trap is at most -4.5 at
    every radius up to the disc edge: there the factor that multiplies the
    migration rate is negative. *)
Theorem planet_trap_reversed_inside_edge (r h dedge : R) :
  0 < h -> 0 < dedge -> r <= dedge ->
  rebx_calculate_planet_trap r h dedge <= -4.5
  /\ rebx_calculate_planet_trap r h dedge < 0.
Proof.
  intros Hh Hd Hr.
  assert (Hm := planet_trap_nondecreasing r dedge h dedge Hh Hd Hr).
  rewrite planet_trap_at_edge in Hm by assumption.
  split; lra.
Qed.

Lemma planet_trap_reversed_inside_edge_witness :
  rebx_calculate_planet_trap 0.5 0.05 1 < 0.
Proof.
  apply (planet_trap_reversed_inside_edge 0.5 0.05 1); lra.
Defined.

Lemma trap_angle_scaling (k r h dedge : R) :
  0 < k -> 0 < h -> 0 < dedge ->
  trap_angle (k * r) h (k * dedge) = trap_angle r h dedge.
Proof.
  intros Hk Hh Hd. unfold trap_angle. field. repeat split; lra.
Qed.

(** X3: the planet trap depends on the radius and the disc edge only
    through their ratio: scaling both by the same [0 < k] (a change of the
    unit of length) leaves the factor as it is. *)
Theorem planet_trap_scale_invariant (k r h dedge : R) :
  0 < k -> 0 < h -> 0 < dedge ->
  rebx_calculate_planet_trap (k * r) h (k * dedge)
  = rebx_calculate_planet_trap r h dedge.
Proof.
  intros Hk Hh Hd. unfold rebx_calculate_planet_trap.
  rewrite trap_angle_scaling by assumption.
  destruct (Rgt_dec (k * r) (k * dedge * (1 + h))) as [A | A];
    destruct (Rgt_dec r (dedge * (1 + h))) as [B | B];
    try reflexivity; try (exfalso; nra).
  destruct (Rlt_dec (k * dedge * (1 - h)) (k * r)) as [C | C];
    destruct (Rlt_dec (dedge * (1 - h)) r) as [D | D];
    try reflexivity; exfalso; nra.
Qed.

Lemma planet_trap_scale_invariant_witness :
  rebx_calculate_planet_trap (2 * 1) 0.05 (2 * 1)
  = rebx_calculate_planet_trap 1 0.05 1.
Proof.
  apply (planet_trap_scale_invariant 2 1 0.05 1); lra.
Defined.

(** ** Further properties of the disc profile and the timescales *)

Lemma pow_real_positive_base (x y : R) : 0 < x -> pow_real x y = Rpower x y.
Proof.
  intros Hx. unfold pow_real.
  destruct (Req_dec_T x 0) as [E | _]; [lra | reflexivity].
Qed.

(** The power law of line 102 in the ratio [r / 3]. *)
Lemma aspect_ratio_power_law (r beta : R) :
  0 < r ->
  rebx_calculating_the_aspect_ratio r beta = 0.02 * Rpower (r / 3) beta.
Proof.
  intros Hr. unfold rebx_calculating_the_aspect_ratio.
  rewrite !pow_real_positive_base by lra.
  unfold Rpower. rewrite Rmult_assoc, <- exp_plus.
  unfold Rdiv. rewrite ln_mult by lra. rewrite ln_Rinv by lra.
  f_equal. f_equal. ring.
Qed.

Lemma aspect_ratio_positive (r beta : R) :
  0 < r -> 0 < rebx_calculating_the_aspect_ratio r beta.
Proof.
  intros Hr. rewrite aspect_ratio_power_law by assumption.
  assert (H := exp_pos (beta * ln (r / 3))). unfold Rpower. lra.
Qed.

(** X4: the aspect ratio is 0.02 at the radius 3 for every index [beta],
    and it is positive at every radius [0 < r]. *)
Theorem aspect_ratio_reference_radius (r beta : R) :
  0 < r ->
  rebx_calculating_the_aspect_ratio 3 beta = 0.02
  /\ 0 < rebx_calculating_the_aspect_ratio r beta.
Proof.
  intros Hr. split.
  - rewrite aspect_ratio_power_law by lra.
    replace (3 / 3) with 1 by field.
    unfold Rpower. rewrite ln_1, Rmult_0_r, exp_0. lra.
  - apply aspect_ratio_positive; assumption.
Qed.

Lemma aspect_ratio_reference_radius_witness :
  rebx_calculating_the_aspect_ratio 3 0.25 = 0.02.
Proof.
  apply (aspect_ratio_reference_radius 1 0.25). lra.
Defined.

(** X5: for an index [0 <= beta] the aspect ratio does not decrease with
    the radius (a flared disc), and for [beta <= 0] it does not increase. *)
Theorem aspect_ratio_monotone (r1 r2 beta : R) :
  0 < r1 -> r1 <= r2 ->
  (0 <= beta ->
   rebx_calculating_the_aspect_ratio r1 beta
   <= rebx_calculating_the_aspect_ratio r2 beta)
  /\ (beta <= 0 ->
      rebx_calculating_the_aspect_ratio r2 beta
      <= rebx_calculating_the_aspect_ratio r1 beta).
Proof.
  intros H1 H12.
  rewrite !aspect_ratio_power_law by lra.
  assert (Hln : ln (r1 / 3) <= ln (r2 / 3)).
  { destruct H12 as [Hlt | Heq].
    - left. apply ln_increasing.
      + apply Rdiv_lt_0_compat; lra.
      + unfold Rdiv. apply Rmult_lt_compat_r; lra.
    - subst r2. right. reflexivity. }
  unfold Rpower. split; intros Hb.
  - assert (Hm : beta * ln (r1 / 3) <= beta * ln (r2 / 3)) by nra.
    destruct Hm as [Hm | Hm].
    + apply exp_increasing in Hm. lra.
    + rewrite Hm. lra.
  - assert (Hm : beta * ln (r2 / 3) <= beta * ln (r1 / 3)) by nra.
    destruct Hm as [Hm | Hm].
    + apply exp_increasing in Hm. lra.
    + rewrite Hm. lra.
Qed.

Lemma aspect_ratio_monotone_witness :
  rebx_calculating_the_aspect_ratio 1 0.25
  <= rebx_calculating_the_aspect_ratio 2 0.25.
Proof.
  apply (aspect_ratio_monotone 1 2 0.25); lra.
Defined.

Lemma damping_timescale_positive (G mp ms sma r sd0 alpha ar : R) :
  0 < G -> 0 < mp -> 0 < ms -> 0 < sma -> 0 < r -> 0 < sd0 -> ar <> 0 ->
  0 < rebx_calculating_damping_timescale G mp ms sma r sd0 alpha ar.
Proof.
  intros HG Hmp Hms Hsma Hr Hsd0 Har.
  assert (Hp := pow_real_pos r (- alpha) Hr).
  unfold rebx_calculating_damping_timescale.
  rewrite inverse_orbital_speed by assumption.
  assert (Hq : 0 < sqrt (sma / (G * ms))).
  { apply sqrt_lt_R0. apply Rdiv_lt_0_compat; nra. }
  assert (Hden : 0 < mp * (sd0 * pow_real r (- alpha)) * sma ^ 2).
  { apply Rmult_lt_0_compat; [apply Rmult_lt_0_compat |];
      [assumption | apply Rmult_lt_0_compat; assumption | nra]. }
  assert (Hfr : 0 < ms ^ 2 / (mp * (sd0 * pow_real r (- alpha)) * sma ^ 2)).
  { apply Rdiv_lt_0_compat; [nra | exact Hden]. }
  assert (Har4 : 0 < ar ^ 4).
  { replace (ar ^ 4) with ((ar * ar) * (ar * ar)) by ring.
    assert (0 < ar * ar) by nra. nra. }
  apply Rmult_lt_0_compat; [apply Rmult_lt_0_compat |]; assumption.
Qed.

(** X6: for positive [G], masses, semimajor axis, radius and surface
    density, and a non-zero aspect ratio, the wave timescale is positive; it
    is inversely proportional to the planet mass and to the surface density
    [sd0], and proportional to the fourth power of the aspect ratio. *)
Theorem damping_timescale_scaling (G mp ms sma r sd0 alpha ar k : R) :
  0 < G -> 0 < mp -> 0 < ms -> 0 < sma -> 0 < r -> 0 < sd0 -> ar <> 0 ->
  0 < k ->
  0 < rebx_calculating_damping_timescale G mp ms sma r sd0 alpha ar
  /\ rebx_calculating_damping_timescale G (k * mp) ms sma r sd0 alpha ar
     = rebx_calculating_damping_timescale G mp ms sma r sd0 alpha ar / k
  /\ rebx_calculating_damping_timescale G mp ms sma r (k * sd0) alpha ar
     = rebx_calculating_damping_timescale G mp ms sma r sd0 alpha ar / k
  /\ rebx_calculating_damping_timescale G mp ms sma r sd0 alpha (k * ar)
     = k ^ 4 * rebx_calculating_damping_timescale G mp ms sma r sd0 alpha ar.
Proof.
  intros HG Hmp Hms Hsma Hr Hsd0 Har Hk.
  assert (Hp := pow_real_pos r (- alpha) Hr).
  split; [apply damping_timescale_positive; assumption |].
  unfold rebx_calculating_damping_timescale.
  rewrite !inverse_orbital_speed by assumption.
  repeat split; field; repeat split; lra.
Qed.

Lemma damping_timescale_scaling_witness :
  0 < rebx_calculating_damping_timescale 1 0.00001 1 1 1 0.001 1 0.02.
Proof.
  apply (damping_timescale_scaling 1 0.00001 1 1 1 0.001 1 0.02 2); lra.
Defined.

Lemma eccentricity_bracket_lower_bound (x : R) :
  0 <= x -> 0.88 <= 1 - 0.14 * x ^ 2 + 0.06 * x ^ 3.
Proof.
  intros Hx.
  assert (Hsq : 0 <= (x - 14 / 9) * (x - 14 / 9)) by apply Rle_0_sqr.
  assert (Hprod : 0 <= (x - 14 / 9) * (x - 14 / 9) * (x + 7 / 9)).
  { apply Rmult_le_pos; lra. }
  replace (1 - 0.14 * x ^ 2 + 0.06 * x ^ 3)
    with (0.06 * ((x - 14 / 9) * (x - 14 / 9) * (x + 7 / 9))
          + (1 - 0.06 * (1372 / 729))) by lra.
  lra.
Qed.

Lemma eccentricity_timescale_lower_bound (G mp ms sma r sd0 alpha ar ecc : R) :
  0 < G -> 0 < mp -> 0 < ms -> 0 < sma -> 0 < r -> 0 < sd0 -> 0 < ar ->
  0 <= ecc ->
  0 < rebx_calculating_eccentricity_damping_timescale
        G mp ms sma r sd0 alpha ar ecc
  /\ rebx_calculating_damping_timescale G mp ms sma r sd0 alpha ar
     * (0.88 / 0.78)
     <= rebx_calculating_eccentricity_damping_timescale
          G mp ms sma r sd0 alpha ar ecc.
Proof.
  intros HG Hmp Hms Hsma Hr Hsd0 Har Hecc.
  assert (Hw : 0 < rebx_calculating_damping_timescale
                     G mp ms sma r sd0 alpha ar).
  { apply damping_timescale_positive; try assumption. lra. }
  assert (Hx : 0 <= ecc / ar).
  { apply Rmult_le_pos; [exact Hecc | left; apply Rinv_0_lt_compat; exact Har]. }
  assert (Hb := eccentricity_bracket_lower_bound (ecc / ar) Hx).
  unfold rebx_calculating_eccentricity_damping_timescale.
  set (w := rebx_calculating_damping_timescale G mp ms sma r sd0 alpha ar) in *.
  set (b := 1 - 0.14 * (ecc / ar) ^ 2 + 0.06 * (ecc / ar) ^ 3) in *.
  assert (Hw78 : 0 < w / 0.780) by lra.
  split.
  - apply Rmult_lt_0_compat; lra.
  - replace (w * (0.88 / 0.78)) with (w / 0.780 * 0.88) by lra.
    apply Rmult_le_compat_l; lra.
Qed.

(** X7: for positive [G], masses, semimajor axis, radius, surface density
    and aspect ratio, and an eccentricity [0 <= ecc], the eccentricity
    damping timescale is positive: the bracket
    [1 - 0.14 (ecc/ar)^2 + 0.06 (ecc/ar)^3] never falls below 0.88, so the
    timescale is at least [0.88 / 0.78] of the wave timescale; at
    [ecc = 0] it is the wave timescale over 0.78. *)
Theorem eccentricity_damping_timescale_positive
    (G mp ms sma r sd0 alpha ar ecc : R) :
  0 < G -> 0 < mp -> 0 < ms -> 0 < sma -> 0 < r -> 0 < sd0 -> 0 < ar ->
  0 <= ecc ->
  0 < rebx_calculating_eccentricity_damping_timescale
        G mp ms sma r sd0 alpha ar ecc
  /\ rebx_calculating_damping_timescale G mp ms sma r sd0 alpha ar
     * (0.88 / 0.78)
     <= rebx_calculating_eccentricity_damping_timescale
          G mp ms sma r sd0 alpha ar ecc
  /\ rebx_calculating_eccentricity_damping_timescale
       G mp ms sma r sd0 alpha ar 0
     = rebx_calculating_damping_timescale G mp ms sma r sd0 alpha ar / 0.78.
Proof.
  intros HG Hmp Hms Hsma Hr Hsd0 Har Hecc.
  destruct (eccentricity_timescale_lower_bound
              G mp ms sma r sd0 alpha ar ecc) as [Hpos Hlow]; try assumption.
  split; [exact Hpos | split; [exact Hlow |]].
  unfold rebx_calculating_eccentricity_damping_timescale.
  replace (0 / ar) with 0 by (field; lra). lra.
Qed.

Lemma eccentricity_damping_timescale_positive_witness :
  0 < rebx_calculating_eccentricity_damping_timescale
        1 0.00001 1 1 1 0.001 1 0.02 0.1.
Proof.
  apply (eccentricity_damping_timescale_positive
           1 0.00001 1 1 1 0.001 1 0.02 0.1); lra.
Defined.

Lemma Pe_denominator_below_singularity (Hr e : R) :
  0 < Hr -> 0 <= e -> e < 2.02 * Hr ->
  0 < Pe_denominator Hr e <= 1.
Proof.
  intros H He0 He. unfold Pe_denominator.
  assert (Hinv : 0 < / (2.02 * Hr)) by (apply Rinv_0_lt_compat; lra).
  assert (Hx0 : 0 <= e / (2.02 * Hr)).
  { apply Rmult_le_pos; lra. }
  assert (Hx1 : e / (2.02 * Hr) < 1).
  { apply Rmult_lt_reg_r with (2.02 * Hr); [lra |].
    unfold Rdiv. rewrite Rmult_assoc, Rinv_l by lra. lra. }
  set (x := e / (2.02 * Hr)) in *.
  replace (x ^ 4) with ((x * x) * (x * x)) by ring.
  assert (Hxx0 : 0 <= x * x) by nra.
  assert (Hxx1 : x * x < 1) by nra.
  split; nra.
Qed.

Lemma Pe_at_least_one (Hr e : R) :
  0 < Hr -> 0 <= e -> e < 2.02 * Hr ->
  1 <= rebx_calculating_Pe_factor Hr e.
Proof.
  intros H He0 He.
  assert (Hn := Pe_numerator_pos Hr e).
  destruct (Pe_denominator_below_singularity Hr e H He0 He) as [Hd0 Hd1].
  unfold rebx_calculating_Pe_factor.
  apply Rmult_le_reg_r with (Pe_denominator Hr e); [exact Hd0 |].
  unfold Rdiv. rewrite Rmult_assoc, Rinv_l by lra. nra.
Qed.

(** X8: below the singularity, for [0 < Hr] and [0 <= e < 2.02 * Hr],
    the factor [Pe] of line 148 is at least 1, and it is 1 at [e = 0]. *)
Theorem Pe_below_singularity (Hr e : R) :
  0 < Hr -> 0 <= e -> e < 2.02 * Hr ->
  1 <= rebx_calculating_Pe_factor Hr e
  /\ rebx_calculating_Pe_factor Hr 0 = 1.
Proof.
  intros H He0 He. split.
  - apply Pe_at_least_one; assumption.
  - apply Pe_at_zero_eccentricity.
Qed.

Lemma Pe_below_singularity_witness :
  1 <= rebx_calculating_Pe_factor 0.02 0.01.
Proof.
  apply (Pe_below_singularity 0.02 0.01); lra.
Defined.

Lemma semi_major_axis_timescale_sign (G mp ms sma r sd0 alpha ar ecc : R) :
  0 < G -> 0 < mp -> 0 < ms -> 0 < sma -> 0 < r -> 0 < sd0 -> 0 < ar ->
  0 < 2.7 + 1.1 * alpha ->
  (0 <= ecc -> ecc < 2.02 * ar ->
   0 < reb_calculating_semi_major_axis_damping_timescale
         G mp ms sma r sd0 alpha ar ecc)
  /\ (2.02 * ar < ecc ->
      reb_calculating_semi_major_axis_damping_timescale
        G mp ms sma r sd0 alpha ar ecc < 0).
Proof.
  intros HG Hmp Hms Hsma Hr Hsd0 Har Hal.
  assert (Hw : 0 < rebx_calculating_damping_timescale
                     G mp ms sma r sd0 alpha ar).
  { apply damping_timescale_positive; try assumption. lra. }
  unfold reb_calculating_semi_major_axis_damping_timescale.
  set (w := rebx_calculating_damping_timescale G mp ms sma r sd0 alpha ar) in *.
  assert (Hc : 0 < 2 * w / (2.7 + 1.1 * alpha) * ar ^ 2).
  { apply Rmult_lt_0_compat; [apply Rdiv_lt_0_compat; lra | nra]. }
  split.
  - intros He0 He.
    assert (HP := Pe_at_least_one ar ecc Har He0 He).
    apply Rmult_lt_0_compat; lra.
  - intros He.
    assert (HP := Pe_negative_beyond_singularity ar ecc Har He).
    nra.
Qed.

(** X9: for positive [G], masses, semimajor axis, radius, surface density
    and aspect ratio, and [0 < 2.7 + 1.1 alpha], the semimajor-axis damping
    timescale is positive for [0 <= ecc < 2.02 ar] and negative for
    [2.02 ar < ecc]: beyond the singularity of [Pe] the torque is
    reversed. *)
Theorem semi_major_axis_timescale_reverses
    (G mp ms sma r sd0 alpha ar ecc : R) :
  0 < G -> 0 < mp -> 0 < ms -> 0 < sma -> 0 < r -> 0 < sd0 -> 0 < ar ->
  0 < 2.7 + 1.1 * alpha ->
  (0 <= ecc -> ecc < 2.02 * ar ->
   0 < reb_calculating_semi_major_axis_damping_timescale
         G mp ms sma r sd0 alpha ar ecc)
  /\ (2.02 * ar < ecc ->
      reb_calculating_semi_major_axis_damping_timescale
        G mp ms sma r sd0 alpha ar ecc < 0).
Proof.
  intros; apply semi_major_axis_timescale_sign; assumption.
Qed.

Lemma semi_major_axis_timescale_reverses_witness :
  reb_calculating_semi_major_axis_damping_timescale
    1 0.00001 1 1 1 0.001 1 0.02 0.5 < 0.
Proof.
  apply (semi_major_axis_timescale_reverses 1 0.00001 1 1 1 0.001 1 0.02 0.5);
    lra.
Defined.

(** ** Further properties of the evaluator *)

Lemma planet_trap_outer_closed (r h dedge : R) :
  0 < h -> 0 < dedge ->
  dedge * (1 + h) <= r -> rebx_calculate_planet_trap r h dedge = 1.
Proof.
  intros Hh Hd [Hr | Hr].
  - apply planet_trap_outer; exact Hr.
  - subst r. rewrite planet_trap_zone by nra.
    rewrite trap_angle_outer, cos_0. lra.
Qed.

(** X10: with [tau_a] set, the disc configured with positive edge, width
    and surface density and [0 < 2.7 + 1.1 alpha], positive [G], masses,
    semimajor axis and distance, and an eccentricity below the singularity
    of [Pe], the evaluator returns with [invtau_a] positive when the
    semimajor axis is at or beyond the outer boundary of the trap zone and
    negative when it is at or inside the disc edge. *)
Theorem invtau_a_sign_at_trap (E : environment) (m : memory)
    (va vh vd vs val vb : R) :
  particle_lookup m "tau_a" = Some va ->
  force_lookup m "disc_edge_width" = Some vh ->
  force_lookup m "inner_disc_edge" = Some vd ->
  force_lookup m "initial_disc_surface_density" = Some vs ->
  force_lookup m "alpha" = Some val ->
  force_lookup m "beta" = Some vb ->
  0 < vh -> 0 < vd -> 0 < vs -> 0 < 2.7 + 1.1 * val ->
  0 < sim_G (at_sim m) -> 0 < p_m (at_p m) -> 0 < env_ms E ->
  0 < o_a (orbit_of E m) -> 0 < r2_of m ->
  0 <= o_e (orbit_of E m) ->
  o_e (orbit_of E m)
  < 2.02 * rebx_calculating_the_aspect_ratio (sqrt (r2_of m)) vb ->
  exists l,
    fst (evaluator_body E m) = Returns l
    /\ (vd * (1 + vh) <= o_a (orbit_of E m) -> 0 < l_invtau_a l)
    /\ (o_a (orbit_of E m) <= vd -> l_invtau_a l < 0).
Proof.
  intros Ha Hh Hd Hs Hal Hb Hvh Hvd Hvs Hval HG Hmp Hms Ha0 Hr2 He0 He.
  destruct (body_semimajor_path E m va vh vd vs val vb Ha Hh Hd Hs Hal Hb)
    as [l [Hl Hv]].
  exists l. split; [exact Hl |].
  assert (Hr : 0 < sqrt (r2_of m)) by (apply sqrt_lt_R0; exact Hr2).
  assert (HHr := aspect_ratio_positive (sqrt (r2_of m)) vb Hr).
  destruct (semi_major_axis_timescale_sign
              (sim_G (at_sim m)) (p_m (at_p m)) (env_ms E)
              (o_a (orbit_of E m)) (sqrt (r2_of m)) vs val
              (rebx_calculating_the_aspect_ratio (sqrt (r2_of m)) vb)
              (o_e (orbit_of E m)) HG Hmp Hms Ha0 Hr Hvs HHr Hval)
    as [Hpos _].
  specialize (Hpos He0 He).
  apply Rinv_0_lt_compat in Hpos.
  rewrite Hv. unfold disc_invtau_a, Rdiv. split.
  - intros Hout. rewrite planet_trap_outer_closed by assumption. lra.
  - intros Hin.
    assert (Ht := planet_trap_nondecreasing (o_a (orbit_of E m)) vd vh vd
                    Hvh Hvd Hin).
    rewrite planet_trap_at_edge in Ht by assumption.
    nra.
Qed.

Lemma invtau_a_sign_at_trap_witness :
  exists l,
    fst (evaluator_body (scenario 0 None)
           (system [("tau_a"%string, 5)] disc_ap)) = Returns l
    /\ (1 * (1 + 0.05)
        <= o_a (orbit_of (scenario 0 None)
                  (system [("tau_a"%string, 5)] disc_ap)) ->
        0 < l_invtau_a l)
    /\ (o_a (orbit_of (scenario 0 None)
               (system [("tau_a"%string, 5)] disc_ap)) <= 1 ->
        l_invtau_a l < 0).
Proof.
  apply (invtau_a_sign_at_trap (scenario 0 None)
           (system [("tau_a"%string, 5)] disc_ap) 5 0.05 1 0.001 1 0);
    try reflexivity;
    try rewrite aspect_ratio_flat_disc;
    unfold r2_of, orbit_of, scenario, system, planet, star;
    cbn [reb_tools_particle_to_orbit_err o_a o_e env_ms
         at_sim at_p at_source sim_G p_m p_x p_y p_z];
    lra.
Defined.

Lemma body_returns_when_safe (E : environment) (m : memory) :
  ((semimajor_path_taken m && semimajor_path_null m)
   || (eccentricity_path_taken E && eccentricity_path_null m))%bool = false ->
  exists l, fst (evaluator_body E m) = Returns l.
Proof.
  intros H. apply body_returns_or_fails.
  intros F. apply body_null_deref_iff in F. rewrite H in F. discriminate F.
Qed.

(** X11: with the pointer [t_e] null, [tau_inc] set to a non-zero [v], a
    non-zero distance between the particle and the source, and no failure
    in the branch of line 187, the evaluator returns [a] with [2 * dvz / v]
    added to its z component and its x and y components as they were: the
    inclination term acts on the vertical velocity only. *)
Theorem inclination_damping_only (E : environment) (m : memory) (v : R) :
  env_t_e E = None ->
  particle_lookup m "tau_inc" = Some v ->
  v <> 0 ->
  0 < r2_of m ->
  (semimajor_path_taken m && semimajor_path_null m)%bool = false ->
  fst (rebx_calculate_modify_orbits_with_type_I_migration E m)
  = Returns (mk_vec3d (vec_x (env_a E)) (vec_y (env_a E))
               (vec_z (env_a E) + 2 * vec_z (rel_velocity m) / v)).
Proof.
  intros Ht Hinc Hv Hr2 Hpath.
  destruct (body_returns_when_safe E m) as [l Hl].
  { unfold eccentricity_path_taken. rewrite Hpath, Ht. reflexivity. }
  assert (He := body_eccentricity_skipped E m l Ht Hl).
  assert (Hi := body_inclination E m l Hl). rewrite Hinc in Hi.
  assert (Ha := body_returned_vector E m l Hl).
  rewrite He, Hi in Ha.
  rewrite evaluator_of_body, Hl, Ha.
  unfold add_ecc_inc_term, rel_velocity.
  cbn [lt_INFINITY orb div_xreal vec_z].
  f_equal. f_equal; ring.
Qed.

Lemma inclination_damping_only_witness :
  fst (rebx_calculate_modify_orbits_with_type_I_migration
         (scenario 0 None) (skew_system [("tau_inc"%string, 4)] []))
  = Returns (mk_vec3d (vec_x (env_a (scenario 0 None)))
               (vec_y (env_a (scenario 0 None)))
               (vec_z (env_a (scenario 0 None))
                + 2 * vec_z (rel_velocity
                               (skew_system [("tau_inc"%string, 4)] [])) / 4)).
Proof.
  apply (inclination_damping_only (scenario 0 None)
           (skew_system [("tau_inc"%string, 4)] []) 4); try reflexivity.
  - lra.
  - unfold r2_of, skew_system, skew_planet, star.
    cbn [at_p at_source p_x p_y p_z]. lra.
Defined.

Lemma ecc_term_is_radial (tau_e : xreal) (dx dy dz dvx dvy dvz r2 : R)
    (a : reb_vec3d) :
  vec_cross (mk_vec3d dx dy dz)
            (vec_sub (add_ecc_inc_term tau_e PlusInf dx dy dz dvx dvy dvz r2 a)
                     a)
  = mk_vec3d 0 0 0.
Proof.
  unfold add_ecc_inc_term, vec_cross, vec_sub.
  destruct tau_e as [t |]; cbn [lt_INFINITY orb div_xreal vec_x vec_y vec_z];
    f_equal; ring.
Qed.

Lemma body_no_torque (E : environment) (m : memory) (l : locals) :
  particle_lookup m "tau_inc" = None ->
  fst (evaluator_body E m) = Returns l ->
  vec_cross (rel_position m) (ecc_inc_contribution E l) = mk_vec3d 0 0 0.
Proof.
  intros Hinc Hl.
  assert (Hi := body_inclination E m l Hl). rewrite Hinc in Hi.
  assert (Ha := body_returned_vector E m l Hl). rewrite Hi in Ha.
  unfold ecc_inc_contribution, rel_position. rewrite Ha.
  apply ecc_term_is_radial.
Qed.

(** X12: with the pointer [t_e] non-null, [tau_a] and [tau_inc] unset,
    [beta], [alpha] and the surface density set, positive [G], masses,
    semimajor axis, distance and surface density and an eccentricity
    [0 <= e] (so that [tau_e] is finite and positive and no division is by
    zero), the evaluator returns and what it has added to [a] is parallel
    to the relative position: its vector product with the position is
    zero, so the eccentricity damping exerts no torque and keeps the
    angular momentum. *)
Theorem eccentricity_damping_no_torque (E : environment) (m : memory)
    (t vs val vb : R) :
  env_t_e E = Some t ->
  particle_lookup m "tau_a" = None ->
  particle_lookup m "tau_inc" = None ->
  force_lookup m "initial_disc_surface_density" = Some vs ->
  force_lookup m "alpha" = Some val ->
  force_lookup m "beta" = Some vb ->
  0 < vs ->
  0 < sim_G (at_sim m) -> 0 < p_m (at_p m) -> 0 < env_ms E ->
  0 < o_a (orbit_of E m) -> 0 < r2_of m -> 0 <= o_e (orbit_of E m) ->
  exists l,
    fst (evaluator_body E m) = Returns l
    /\ l_tau_e l = Finite (disc_tau_e E m vs val vb)
    /\ 0 < disc_tau_e E m vs val vb
    /\ vec_cross (rel_position m) (ecc_inc_contribution E l) = mk_vec3d 0 0 0.
Proof.
  intros Ht Ha Hinc Hs Hal Hb Hvs HG Hmp Hms Ha0 Hr2 He0.
  destruct (body_returns_when_safe E m) as [l Hl].
  { unfold semimajor_path_taken, eccentricity_path_null.
    rewrite Ha, Hs, Hal, Hb. cbn [is_null negb andb orb].
    apply Bool.andb_false_r. }
  assert (Hte := body_eccentricity_path E m l t vs val vb Ht Hs Hal Hb Hl).
  assert (Hr : 0 < sqrt (r2_of m)) by (apply sqrt_lt_R0; exact Hr2).
  assert (HHr := aspect_ratio_positive (sqrt (r2_of m)) vb Hr).
  assert (Hpos : 0 < disc_tau_e E m vs val vb).
  { unfold disc_tau_e.
    apply eccentricity_timescale_lower_bound; assumption. }
  exists l. split; [exact Hl | split; [exact Hte | split; [exact Hpos |]]].
  apply body_no_torque; assumption.
Qed.

Lemma eccentricity_damping_no_torque_witness :
  exists l,
    fst (evaluator_body (scenario 0 (Some 5))
           (skew_system [("tau_e"%string, 5)] disc_ap)) = Returns l
    /\ l_tau_e l
       = Finite (disc_tau_e (scenario 0 (Some 5))
                   (skew_system [("tau_e"%string, 5)] disc_ap) 0.001 1 0)
    /\ 0 < disc_tau_e (scenario 0 (Some 5))
             (skew_system [("tau_e"%string, 5)] disc_ap) 0.001 1 0
    /\ vec_cross (rel_position (skew_system [("tau_e"%string, 5)] disc_ap))
                 (ecc_inc_contribution (scenario 0 (Some 5)) l)
       = mk_vec3d 0 0 0.
Proof.
  apply (eccentricity_damping_no_torque (scenario 0 (Some 5))
           (skew_system [("tau_e"%string, 5)] disc_ap) 5 0.001 1 0);
    try reflexivity;
    unfold r2_of, orbit_of, scenario, skew_system, skew_planet, star;
    cbn [reb_tools_particle_to_orbit_err o_a o_e env_ms
         at_sim at_p at_source sim_G p_m p_x p_y p_z];
    lra.
Defined.

(** X13: when [tau_a] is unset and the branch of line 190 reads no null
    pointer, the evaluator returns with [invtau_a] zero and the vector [aa]
    of lines 198-200 the zero vector: there is no semimajor-axis forcing,
    whatever the disc edge and its width are, set or unset. *)
Theorem no_semimajor_forcing_without_tau_a (E : environment) (m : memory) :
  particle_lookup m "tau_a" = None ->
  (eccentricity_path_taken E && eccentricity_path_null m)%bool = false ->
  exists l,
    fst (evaluator_body E m) = Returns l
    /\ l_invtau_a l = 0
    /\ l_aa l = mk_vec3d 0 0 0.
Proof.
  intros Ha Hsafe.
  destruct (body_returns_when_safe E m) as [l Hl].
  { unfold semimajor_path_taken. rewrite Ha, Hsafe. reflexivity. }
  exists l. split; [exact Hl | split].
  - apply (body_semimajor_skipped E m); assumption.
  - revert Hl. body_cases; intros H; inversion H;
      cbn [l_aa]; f_equal; ring.
Qed.

Lemma no_semimajor_forcing_without_tau_a_witness :
  exists l,
    fst (evaluator_body (scenario 0 (Some 5))
           (system [("tau_e"%string, 5)] disc_no_edge_ap)) = Returns l
    /\ l_invtau_a l = 0
    /\ l_aa l = mk_vec3d 0 0 0.
Proof.
  apply (no_semimajor_forcing_without_tau_a (scenario 0 (Some 5))
           (system [("tau_e"%string, 5)] disc_no_edge_ap)); reflexivity.
Defined.

Lemma ecc_term_radial_component (t : R) (dx dy dz dvx dvy dvz : R)
    (a : reb_vec3d) :
  t <> 0 -> dx * dx + dy * dy + dz * dz <> 0 ->
  vec_dot (mk_vec3d dx dy dz)
          (vec_sub (add_ecc_inc_term (Finite t) PlusInf dx dy dz dvx dvy dvz
                      (dx * dx + dy * dy + dz * dz) a) a)
  = 2 * vec_dot (mk_vec3d dx dy dz) (mk_vec3d dvx dvy dvz) / t.
Proof.
  intros Ht Hr2.
  unfold add_ecc_inc_term, vec_dot, vec_sub.
  cbn [lt_INFINITY orb div_xreal vec_x vec_y vec_z].
  field. split; assumption.
Qed.

(** X14: with the pointer [t_e] non-null, [tau_a] and [tau_inc] unset,
    [beta], [alpha] and the surface density set, positive [G], masses,
    semimajor axis, distance and surface density and an eccentricity
    [0 <= e], the evaluator returns with a positive finite [tau_e], and the
    component along the relative position of what it adds to [a] is
    [2 (r . v) / tau_e]: it has the sign of the radial velocity. *)
Theorem disc_eccentricity_term_sign (E : environment) (m : memory)
    (t vs val vb : R) :
  env_t_e E = Some t ->
  particle_lookup m "tau_a" = None ->
  particle_lookup m "tau_inc" = None ->
  force_lookup m "initial_disc_surface_density" = Some vs ->
  force_lookup m "alpha" = Some val ->
  force_lookup m "beta" = Some vb ->
  0 < vs ->
  0 < sim_G (at_sim m) -> 0 < p_m (at_p m) -> 0 < env_ms E ->
  0 < o_a (orbit_of E m) -> 0 < r2_of m -> 0 <= o_e (orbit_of E m) ->
  exists l,
    fst (evaluator_body E m) = Returns l
    /\ l_tau_e l = Finite (disc_tau_e E m vs val vb)
    /\ 0 < disc_tau_e E m vs val vb
    /\ vec_dot (rel_position m) (ecc_inc_contribution E l)
       = 2 * vec_dot (rel_position m) (rel_velocity m)
         / disc_tau_e E m vs val vb.
Proof.
  intros Ht Ha Hinc Hs Hal Hb Hvs HG Hmp Hms Ha0 Hr2 He0.
  destruct (body_returns_when_safe E m) as [l Hl].
  { unfold semimajor_path_taken, eccentricity_path_null.
    rewrite Ha, Hs, Hal, Hb. cbn [is_null negb andb orb].
    apply Bool.andb_false_r. }
  assert (Hte := body_eccentricity_path E m l t vs val vb Ht Hs Hal Hb Hl).
  assert (Hr : 0 < sqrt (r2_of m)) by (apply sqrt_lt_R0; exact Hr2).
  assert (HHr := aspect_ratio_positive (sqrt (r2_of m)) vb Hr).
  assert (Hpos : 0 < disc_tau_e E m vs val vb).
  { unfold disc_tau_e.
    apply eccentricity_timescale_lower_bound; assumption. }
  exists l. split; [exact Hl | split; [exact Hte | split; [exact Hpos |]]].
  assert (Hi := body_inclination E m l Hl). rewrite Hinc in Hi.
  assert (Hv := body_returned_vector E m l Hl). rewrite Hte, Hi in Hv.
  unfold ecc_inc_contribution, rel_position, rel_velocity. rewrite Hv.
  unfold r2_of in *. cbv zeta in *.
  apply ecc_term_radial_component; lra.
Qed.

Lemma disc_eccentricity_term_sign_witness :
  exists l,
    fst (evaluator_body (scenario 0 (Some 5))
           (system [("tau_e"%string, 5)] disc_no_edge_ap)) = Returns l
    /\ l_tau_e l
       = Finite (disc_tau_e (scenario 0 (Some 5))
                   (system [("tau_e"%string, 5)] disc_no_edge_ap) 0.001 1 0)
    /\ 0 < disc_tau_e (scenario 0 (Some 5))
             (system [("tau_e"%string, 5)] disc_no_edge_ap) 0.001 1 0
    /\ vec_dot (rel_position (system [("tau_e"%string, 5)] disc_no_edge_ap))
               (ecc_inc_contribution (scenario 0 (Some 5)) l)
       = 2 * vec_dot (rel_position
                        (system [("tau_e"%string, 5)] disc_no_edge_ap))
                     (rel_velocity
                        (system [("tau_e"%string, 5)] disc_no_edge_ap))
         / disc_tau_e (scenario 0 (Some 5))
             (system [("tau_e"%string, 5)] disc_no_edge_ap) 0.001 1 0.
Proof.
  apply (disc_eccentricity_term_sign (scenario 0 (Some 5))
           (system [("tau_e"%string, 5)] disc_no_edge_ap) 5 0.001 1 0);
    try reflexivity;
    unfold r2_of, orbit_of, scenario, system, planet, star;
    cbn [reb_tools_particle_to_orbit_err o_a o_e env_ms
         at_sim at_p at_source sim_G p_m p_x p_y p_z];
    lra.
Defined.

(** ** The state that a call leaves behind *)



(** In the larger state too, the memory behind the four pointers is left
    as it was. *)
Lemma evaluator_call_keeps_pointees (E : environment) (s : state) :
  st_memory (snd (evaluator_call E s)) = st_memory s.
Proof.
  unfold evaluator_call.
  assert (Hm := frame_evaluator_body (entering E s) (st_memory s)).
  destruct (evaluator_body (entering E s) (st_memory s)) as [[l |] m'];
    cbn [fst snd st_memory] in *; exact Hm.
Qed.


